(** * Connect Four: the board, the drop rule and the match controller

    A shallow embedding of [index.js].  The three constructor functions of
    the script ([Cell], [GameBoard], [GameController]) keep their state in
    closures; here that state is passed explicitly.  A call either completes
    or dies with an uncaught [TypeError] (a method call on [undefined]); both
    outcomes are kept, together with the state the call leaves behind. *)

From stdpp Require Import base tactics option list list_numbers numbers strings pretty.

Local Open Scope Z_scope.

(** ** JavaScript plumbing *)

(** How a call ends: normally with a value, or with an uncaught TypeError. *)
Inductive result (A : Type) : Type :=
  | Ok (a : A)
  | TypeError.
Arguments Ok {A} a.
Arguments TypeError {A}.

(** Sequencing: a TypeError in the first step ends the whole call. *)
Definition andThen {A B : Type} (m : result A) (k : A → result B) : result B :=
  match m with
  | Ok a => k a
  | TypeError => TypeError
  end.

Notation "'const' x := m 'in' k" := (andThen m (λ x, k))
  (at level 10, x name, m at level 200, k at level 200,
   format "'[v' 'const'  x  :=  m  'in'  '/' k ']'").

(** [xs[i]] for an integer-valued [i]; [None] is [undefined]. *)
Definition index {A : Type} (xs : list A) (i : Z) : option A :=
  if bool_decide (0 ≤ i) then xs !! Z.to_nat i else None.

(** A [for] loop whose body may [return true] out of the enclosing function
    and otherwise falls through to the code after the loop. *)
Fixpoint forReturn {A : Type} (body : A → result bool) (xs : list A)
  : result bool :=
  match xs with
  | [] => Ok false
  | x :: rest =>
      match body x with
      | Ok true => Ok true
      | Ok false => forReturn body rest
      | TypeError => TypeError
      end
  end.

(** A [for] loop that updates a local variable. *)
Fixpoint forAccum {A S : Type} (body : S → A → result S) (s : S) (xs : list A)
  : result S :=
  match xs with
  | [] => Ok s
  | x :: rest =>
      match body s x with
      | Ok s' => forAccum body s' rest
      | TypeError => TypeError
      end
  end.

(** [Array.prototype.filter] with a callback that may throw. *)
Fixpoint filterArray {A : Type} (keep : A → result bool) (xs : list A)
  : result (list A) :=
  match xs with
  | [] => Ok []
  | x :: rest =>
      match keep x with
      | Ok b =>
          match filterArray keep rest with
          | Ok kept => Ok (if b then x :: kept else kept)
          | TypeError => TypeError
          end
      | TypeError => TypeError
      end
  end.

(** What [console.log] was handed: a string, or a matrix of cell values. *)
Inductive Output : Type :=
  | Line (s : string)
  | Table (values : list (list Z)).

(** ** Cell *)

Record Cell : Type := { value : Z }.

(** [Cell()] *)
Definition Cell_new : Cell := {| value := 0 |}.

Definition addToken (player : Z) (cell : Cell) : Cell := {| value := player |}.

Definition getValue (cell : Cell) : Z := value cell.

(** ** GameBoard *)

Abbreviation Board := (list (list Cell)).

(** [GameBoard()].  The function declares no parameters, so whatever a
    caller passes is dropped. *)
Definition GameBoard (arguments : list Z) : Board :=
  let rows := 6 in
  let columns := 7 in
  (λ i, (λ j, Cell_new) <$> seqZ 0 columns) <$> seqZ 0 rows.

Definition getBoard (board : Board) : Board := board.

(** [board.filter((row) => row[column].getValue() === 0)
         .map((row) => row[column])] *)
Definition availableCells (column : Z) (board : Board)
  : result (list (option Cell)) :=
  const kept := filterArray
            (λ row, match index row column with
                    | None => TypeError
                    | Some cell => Ok (bool_decide (getValue cell = 0))
                    end)
            board in
  Ok ((λ row : list Cell, index row column) <$> kept).

(** [dropToken(column, player)]: the outcome of the call and the board it
    leaves. *)
Definition dropToken (column player : Z) (board : Board)
  : result unit * Board :=
  match availableCells column board with
  | TypeError => (TypeError, board)
  | Ok cells =>
      if bool_decide (length cells = 0%nat) then (Ok (), board)
      else
        let lowestRow := Z.of_nat (length cells) - 1 in
        match index board lowestRow with
        | None => (TypeError, board)
        | Some row =>
            match index row column with
            | None => (TypeError, board)
            | Some cell =>
                (Ok (),
                 <[Z.to_nat lowestRow :=
                     <[Z.to_nat column := addToken player cell]> row]> board)
            end
        end
  end.

(** The argument of [console.log] in [printBoard]. *)
Definition boardWithCellValues (board : Board) : list (list Z) :=
  (λ row : list Cell, (λ cell, getValue cell) <$> row) <$> board.

Definition printBoard (board : Board) : list Output :=
  [Table (boardWithCellValues board)].

(** ** GameController *)

Record Player : Type := { name : string; token : Z }.

(** The two objects of the [players] array; [activePlayer] refers to one of
    them, and [===] compares the references. *)
Inductive Seat : Type := Seat0 | Seat1.

#[global] Instance Seat_eq_dec : EqDecision Seat.
Proof. solve_decision. Defined.

Record Game : Type := {
  board : Board;
  players : Player * Player;
  activePlayer : Seat;
  console : list Output
}.

Definition playerAt (g : Game) (s : Seat) : Player :=
  match s with
  | Seat0 => fst (players g)
  | Seat1 => snd (players g)
  end.

Definition getActivePlayer (g : Game) : Player := playerAt g (activePlayer g).

Definition switchPlayerTurn (g : Game) : Game :=
  {| board := board g;
     players := players g;
     activePlayer := if decide (activePlayer g = Seat0) then Seat1 else Seat0;
     console := console g |}.

Definition log (out : list Output) (g : Game) : Game :=
  {| board := board g;
     players := players g;
     activePlayer := activePlayer g;
     console := console g ++ out |}.

Definition withBoard (b : Board) (g : Game) : Game :=
  {| board := b;
     players := players g;
     activePlayer := activePlayer g;
     console := console g |}.

Definition printNewRound (g : Game) : Game :=
  log (printBoard (board g) ++ [Line (name (getActivePlayer g) +:+ "'s turn.")]) g.

(** [board[r][c].getValue()] *)
Definition cellValue (board : Board) (r c : Z) : result Z :=
  match index board r with
  | None => TypeError
  | Some row =>
      match index row c with
      | None => TypeError
      | Some cell => Ok (getValue cell)
      end
  end.

Definition directions : list (Z * Z) := [(0, 1); (1, 0); (1, 1); (1, -1)].

(** The innermost loop of [checkWin]: [count] after the four steps.  The
    script is not in strict mode, so the undeclared [dr] and [dc] of the
    enclosing [for ... of] are ordinary (global) variables. *)
Definition countLine (token : Z) (board : Board) (rows cols r c dr dc : Z)
  : result Z :=
  forAccum
    (λ count i,
       let rowIndex := r + dr * i in
       let colIndex := c + dc * i in
       if bool_decide (0 ≤ rowIndex) && bool_decide (rowIndex < rows)
          && bool_decide (0 ≤ colIndex) && bool_decide (colIndex < cols)
       then
         const v := cellValue board rowIndex colIndex in
         Ok (if bool_decide (v = token) then count + 1 else count)
       else Ok count)
    0 (seqZ 0 4).

Definition checkWin (g : Game) (board : Board) : result bool :=
  let rows := Z.of_nat (length board) in
  match index board 0 with
  | None => TypeError
  | Some row0 =>
      let cols := Z.of_nat (length row0) in
      let token := token (getActivePlayer g) in
      forReturn
        (λ r,
           forReturn
             (λ c,
                const v := cellValue board r c in
                if bool_decide (v ≠ token) then Ok false
                else
                  forReturn
                    (λ '(dr, dc),
                       const count := countLine token board rows cols r c dr dc in
                       Ok (bool_decide (4 ≤ count)))
                    directions)
             (seqZ 0 cols))
        (seqZ 0 rows)
  end.

Definition checkTie (board : Board) : result bool :=
  let rows := Z.of_nat (length board) in
  match index board 0 with
  | None => TypeError
  | Some row0 =>
      let cols := Z.of_nat (length row0) in
      const count := forAccum
                 (λ count r,
                    forAccum
                      (λ count c,
                         const v := cellValue board r c in
                         Ok (if bool_decide (v = 0) then count + 1 else count))
                      count (seqZ 0 cols))
                 0 (seqZ 0 rows) in
      Ok (bool_decide (count = 0))
  end.

(** [playRound(column)]: the outcome of the call and the match it leaves. *)
Definition playRound (column : Z) (g : Game) : result unit * Game :=
  let g :=
    log [Line ("Dropping " +:+ name (getActivePlayer g)
               +:+ "'s token into column " +:+ pretty column +:+ "...")] g in
  match dropToken column (token (getActivePlayer g)) (board g) with
  | (TypeError, b) => (TypeError, withBoard b g)
  | (Ok _, b) =>
      let g := withBoard b g in
      match checkWin g (getBoard (board g)) with
      | TypeError => (TypeError, g)
      | Ok true =>
          (Ok (),
           log (printBoard (board g)
                ++ [Line (name (getActivePlayer g) +:+ " won!")]) g)
      | Ok false =>
          match checkTie (getBoard (board g)) with
          | TypeError => (TypeError, g)
          | Ok true =>
              (Ok (),
               log (printBoard (board g)
                    ++ [Line "No more cells. It's a Tie!"]) g)
          | Ok false => (Ok (), printNewRound (switchPlayerTurn g))
          end
      end
  end.

(** [GameController(playerOneName, playerTwoName)]; [None] is an argument
    left out, which takes the default. *)
Definition GameController (playerOneName playerTwoName : option string) : Game :=
  printNewRound
    {| board := GameBoard [];
       players :=
         ({| name := default "Player One" playerOneName; token := 1 |},
          {| name := default "Player Two" playerTwoName; token := 2 |});
       activePlayer := Seat0;
       console := [] |}.

(** * Vocabulary of the properties *)

(** The board has [rows] rows of [cols] cells each. *)
Definition rectangular (rows cols : nat) (b : Board) : Prop :=
  length b = rows ∧ Forall (λ row, length row = cols) b.

(** Sum of the weights [w x] over the list. *)
Definition total {A : Type} (w : A → Z) (xs : list A) : Z :=
  foldr (λ x acc, w x + acc) 0 xs.

(** Cell [(r, c)] exists and holds [token]. *)
Definition holds (b : Board) (token r c : Z) : bool :=
  match cellValue b r c with
  | Ok v => bool_decide (v = token)
  | TypeError => false
  end.

(** [n] cells in a row from [(r, c)] in direction [d], all holding [token]. *)
Definition alignedFrom (n : Z) (token : Z) (b : Board) (r c : Z) (d : Z * Z) : Prop :=
  ∀ i, 0 ≤ i < n → cellValue b (r + d.1 * i) (c + d.2 * i) = Ok token.

(** Somewhere on the board [n] cells in one of the four directions all
    hold [token]. *)
Definition hasLine (n : Z) (token : Z) (b : Board) : Prop :=
  ∃ r c d, d ∈ directions ∧ alignedFrom n token b r c d.

(** The longest line of [token] on the board has exactly [n] cells. *)
Definition longestLineIs (n : Z) (token : Z) (b : Board) : Prop :=
  hasLine n token b ∧ ¬ hasLine (n + 1) token b.

(** The values of one column, top row first. *)
Definition columnValues (column : Z) (b : Board) : list Z :=
  (λ row : list Cell, from_option getValue 0 (index row column)) <$> b.

(** Number of zeros in a list. *)
Definition zeros (l : list Z) : nat := length (filter (λ v : Z, v = 0) l).

(** Number of empty cells in a column. *)
Definition emptyCount (column : Z) (b : Board) : nat :=
  zeros (columnValues column b).

(** No empty cell under an occupied one. *)
Definition gravity (b : Board) : Prop :=
  ∀ r c, cellValue b r c = Ok 0 → ∀ r', 0 ≤ r' ≤ r → cellValue b r' c = Ok 0.

(** Row [r] is the lowest empty cell of column [c]. *)
Definition lowestEmpty (b : Board) (c r : Z) : Prop :=
  cellValue b r c = Ok 0 ∧ ∀ r', cellValue b r' c = Ok 0 → r' ≤ r.

(** In a column read top to bottom, everything above a zero is zero. *)
Definition sunk (l : list Z) : Prop :=
  ∀ i j : nat, (i ≤ j)%nat → l !! j = Some 0 → l !! i = Some 0.

(** [b'] is [b] with the cell at [(r, c)] now holding [p]. *)
Definition placedAt (b b' : Board) (r c p : Z) : Prop :=
  ∀ r' c', cellValue b' r' c' =
           if bool_decide (r' = r ∧ c' = c) then Ok p else cellValue b r' c'.

(** The boards that sequences of [dropToken] calls produce from a fresh
    one; a call that throws or finds the column full leaves the board. *)
Inductive reachable : Board → Prop :=
  | reachable_fresh arguments : reachable (GameBoard arguments)
  | reachable_drop b column player :
      reachable b → reachable (dropToken column player b).2.

(** Dropping [tokens] one after the other into one column; [None] as soon
    as a drop finds no available cell or does not return. *)
Fixpoint dropMany (column : Z) (tokens : list Z) (b : Board) : option Board :=
  match tokens with
  | [] => Some b
  | player :: rest =>
      match availableCells column b, dropToken column player b with
      | Ok (_ :: _), (Ok _, b') => dropMany column rest b'
      | _, _ => None
      end
  end.

(** No cell of the board is empty. *)
Definition full (b : Board) : Prop :=
  ∀ r c, cellValue b r c ≠ Ok 0.

(** The first statement of [playRound]. *)
Definition announce (column : Z) (g : Game) : Game :=
  log [Line ("Dropping " +:+ name (getActivePlayer g)
             +:+ "'s token into column " +:+ pretty column +:+ "...")] g.

(** The three ways [playRound] ends once the drop has returned. *)
Definition roundEnd (won tied : bool) (g : Game) : Game :=
  if won then
    log (printBoard (board g) ++ [Line (name (getActivePlayer g) +:+ " won!")]) g
  else if tied then
    log (printBoard (board g) ++ [Line "No more cells. It's a Tie!"]) g
  else printNewRound (switchPlayerTurn g).

(** The player who is not at seat [s]. *)
Definition otherSeat (s : Seat) : Seat :=
  match s with
  | Seat0 => Seat1
  | Seat1 => Seat0
  end.

(** The match after a sequence of [playRound] calls; a call that throws
    leaves the match as it was when the exception left [playRound]. *)
Definition playRounds (columns : list Z) (g : Game) : Game :=
  foldl (λ g column, (playRound column g).2) g columns.

(** Every cell holds 0, 1 or 2. *)
Definition tokensOnly (b : Board) : Prop :=
  ∀ r c v, cellValue b r c = Ok v → v = 0 ∨ v = 1 ∨ v = 2.

(** What every match reached through [playRound] satisfies. *)
Definition wellFormed (g : Game) : Prop :=
  reachable (board g) ∧ tokensOnly (board g)
  ∧ token (players g).1 = 1 ∧ token (players g).2 = 2.

(** Build a board from a matrix of cell values. *)
Definition boardOf (values : list (list Z)) : Board :=
  (λ row : list Z, (λ v, {| value := v |}) <$> row) <$> values.

(** A drop into [column] marks the lowest empty cell of that column with
    [player] and changes nothing else. *)
Definition dropFillsLowest (b : Board) (column player : Z) : Prop :=
  ∃ r b', lowestEmpty b column r
          ∧ dropToken column player b = (Ok (), b')
          ∧ placedAt b b' r column player.

(** A column whose five upper cells are occupied over an empty bottom cell. *)
Definition floating : Board :=
  boardOf [[1;0;0;0;0;0;0]; [2;0;0;0;0;0;0]; [1;0;0;0;0;0;0];
           [2;0;0;0;0;0;0]; [1;0;0;0;0;0;0]; [0;0;0;0;0;0;0]].

(** Number of empty cells of a board with [cols] columns, column by column. *)
Definition emptyCells (cols : nat) (b : Board) : Z :=
  total (λ c, Z.of_nat (emptyCount c b)) (seqZ 0 (Z.of_nat cols)).

(** The filter of [dropToken] keeps a cell: the drop will place a token. *)
Definition accepts (column : Z) (b : Board) : bool :=
  match availableCells column b with
  | Ok (_ :: _) => true
  | _ => false
  end.

(** How many rounds of a sequence of [playRound] calls placed a token. *)
Fixpoint acceptedRounds (columns : list Z) (g : Game) : nat :=
  match columns with
  | [] => 0
  | column :: rest =>
      ((if accepts column (board g) then 1 else 0)
       + acceptedRounds rest (playRound column g).2)%nat
  end.

(** * Properties *)

(** ** Shape of a board and reading a cell *)

Lemma index_Some {A : Type} (xs : list A) (i : Z) (x : A) :
  index xs i = Some x ↔ 0 ≤ i ∧ xs !! Z.to_nat i = Some x.
Proof.
  unfold index. case_bool_decide.
  - split; [done | by intros [_ ?]].
  - split; [done | intros [? _]; lia].
Qed.

Lemma index_None {A : Type} (xs : list A) (i : Z) :
  index xs i = None ↔ i < 0 ∨ Z.of_nat (length xs) ≤ i.
Proof.
  unfold index. case_bool_decide.
  - rewrite lookup_ge_None. lia.
  - split; [lia | done].
Qed.

Lemma index_in_range {A : Type} (xs : list A) (i : Z) :
  0 ≤ i < Z.of_nat (length xs) → is_Some (index xs i).
Proof.
  intros Hi. destruct (index xs i) eqn:E; [eauto |].
  apply index_None in E. lia.
Qed.

Lemma rectangular_row rows cols b (r : nat) row :
  rectangular rows cols b → b !! r = Some row → length row = cols.
Proof.
  intros [_ Hall] Hrow. rewrite Forall_lookup in Hall. eauto.
Qed.

Lemma cellValue_Ok b r c v :
  cellValue b r c = Ok v ↔
  ∃ row cell, index b r = Some row ∧ index row c = Some cell ∧ getValue cell = v.
Proof.
  unfold cellValue. split.
  - destruct (index b r) as [row|] eqn:Hrow; [|done].
    destruct (index row c) as [cell|] eqn:Hcell; [|done].
    intros [= <-]. eauto.
  - intros (row & cell & -> & -> & <-). done.
Qed.

Lemma cellValue_bounds rows cols b r c v :
  rectangular rows cols b → cellValue b r c = Ok v →
  0 ≤ r < Z.of_nat rows ∧ 0 ≤ c < Z.of_nat cols.
Proof.
  intros Hrect (row & cell & Hrow & Hcell & _)%cellValue_Ok.
  apply index_Some in Hrow as [Hr Hrow], Hcell as [Hc Hcell].
  pose proof (rectangular_row _ _ _ _ _ Hrect Hrow) as Hlen.
  apply lookup_lt_Some in Hrow, Hcell. destruct Hrect as [Hrows _]. lia.
Qed.

Lemma cellValue_defined rows cols b r c :
  rectangular rows cols b →
  0 ≤ r < Z.of_nat rows → 0 ≤ c < Z.of_nat cols →
  ∃ v, cellValue b r c = Ok v.
Proof.
  intros Hrect Hr Hc.
  destruct (index_in_range b r) as [row Hrow]; [destruct Hrect; lia |].
  pose proof Hrow as [_ Hrow']%index_Some.
  pose proof (rectangular_row _ _ _ _ _ Hrect Hrow') as Hlen.
  destruct (index_in_range row c) as [cell Hcell]; [lia |].
  exists (getValue cell). apply cellValue_Ok. eauto.
Qed.

(** ** The two loop shapes *)

Lemma forReturn_spec {A : Type} (body : A → result bool) (xs : list A) :
  (∀ x, x ∈ xs → ∃ v, body x = Ok v) →
  ∃ v, forReturn body xs = Ok v ∧ (v = true ↔ ∃ x, x ∈ xs ∧ body x = Ok true).
Proof.
  induction xs as [|x xs IH]; intros Hdef; simpl.
  - exists false. split; [done |]. split; [done |].
    intros (x & Hx & _). by apply elem_of_nil in Hx.
  - destruct (Hdef x) as [[] Hx]; [left | | ]; rewrite Hx.
    + exists true. split; [done |]. split; [| done].
      intros _. exists x. split; [left | done].
    + destruct IH as (v & Hv & Hiff).
      { intros y Hy. apply Hdef. by right. }
      exists v. split; [done |]. rewrite Hiff. split.
      * intros (y & Hy & Hby). exists y. split; [by right | done].
      * intros (y & [-> | Hy]%elem_of_cons & Hby); [congruence | eauto].
Qed.

Lemma forAccum_total {A : Type} (body : Z → A → result Z) (w : A → Z) xs n :
  (∀ count x, x ∈ xs → body count x = Ok (count + w x)) →
  forAccum body n xs = Ok (n + total w xs).
Proof.
  revert n. induction xs as [|x xs IH]; intros n Hbody; simpl.
  - f_equal. lia.
  - rewrite Hbody by left. rewrite IH.
    + f_equal. lia.
    + intros count y Hy. apply Hbody. by right.
Qed.

Lemma total_nonneg {A : Type} (w : A → Z) xs :
  (∀ x, x ∈ xs → 0 ≤ w x) → 0 ≤ total w xs.
Proof.
  induction xs as [|x xs IH]; intros Hw; simpl; [done |].
  assert (0 ≤ w x) by (apply Hw; left).
  assert (0 ≤ total w xs) by (apply IH; intros y Hy; apply Hw; by right).
  lia.
Qed.

Lemma total_zero {A : Type} (w : A → Z) xs :
  (∀ x, x ∈ xs → 0 ≤ w x) →
  total w xs = 0 ↔ ∀ x, x ∈ xs → w x = 0.
Proof.
  induction xs as [|x xs IH]; intros Hw; simpl.
  - split; [| done]. intros _ x Hx. by apply elem_of_nil in Hx.
  - assert (0 ≤ w x) by (apply Hw; left).
    assert (Hrest : ∀ y, y ∈ xs → 0 ≤ w y) by (intros y Hy; apply Hw; by right).
    pose proof (total_nonneg w xs Hrest). specialize (IH Hrest). split.
    + intros Hsum y [-> | Hy]%elem_of_cons; [lia |].
      apply IH; [lia | done].
    + intros Hall. rewrite (Hall x) by left.
      rewrite (proj2 IH); [done |]. intros y Hy. apply Hall. by right.
Qed.

(** ** Win detection *)

Lemma holds_true b token r c : holds b token r c = true ↔ cellValue b r c = Ok token.
Proof.
  unfold holds. destruct (cellValue b r c) as [v|]; [| done].
  rewrite bool_decide_eq_true. naive_solver.
Qed.

Lemma countLine_spec rows cols b token r c dr dc :
  rectangular rows cols b →
  countLine token b (Z.of_nat rows) (Z.of_nat cols) r c dr dc =
  Ok (total (λ i, if holds b token (r + dr * i) (c + dc * i) then 1 else 0)
            (seqZ 0 4)).
Proof.
  intros Hrect. unfold countLine.
  rewrite (forAccum_total _
    (λ i, if holds b token (r + dr * i) (c + dc * i) then 1 else 0)).
  { f_equal. }
  intros count i _. cbv zeta. unfold holds.
  destruct (bool_decide (0 ≤ r + dr * i) && bool_decide (r + dr * i < Z.of_nat rows)
            && bool_decide (0 ≤ c + dc * i) && bool_decide (c + dc * i < Z.of_nat cols))
    eqn:Hin.
  - destruct (cellValue b (r + dr * i) (c + dc * i)) as [v|] eqn:Hv; simpl.
    + destruct (bool_decide (v = token)); f_equal; lia.
    + rewrite !andb_true_iff, !bool_decide_eq_true in Hin.
      destruct (cellValue_defined rows cols b (r + dr * i) (c + dc * i))
        as [v Hv']; [done | lia | lia | congruence].
  - destruct (cellValue b (r + dr * i) (c + dc * i)) as [v|] eqn:Hv.
    + apply (cellValue_bounds rows cols) in Hv; [| done].
      rewrite !andb_false_iff, !bool_decide_eq_false in Hin. lia.
    + f_equal. lia.
Qed.

Lemma four_in_window (h : Z → bool) :
  4 ≤ total (λ i, if h i then 1 else 0) (seqZ 0 4) ↔ ∀ i, 0 ≤ i < 4 → h i = true.
Proof.
  change (seqZ 0 4) with [0; 1; 2; 3]. simpl. split.
  - intros Hsum i Hi.
    assert (i = 0 ∨ i = 1 ∨ i = 2 ∨ i = 3) as [-> | [-> | [-> | ->]]] by lia;
      destruct (h 0), (h 1), (h 2), (h 3); done || lia.
  - intros Hall. rewrite !Hall by lia. lia.
Qed.

Lemma countLine_four rows cols b token r c d :
  rectangular rows cols b →
  ∃ count, countLine token b (Z.of_nat rows) (Z.of_nat cols) r c d.1 d.2 = Ok count
           ∧ (4 ≤ count ↔ alignedFrom 4 token b r c d).
Proof.
  intros Hrect. eexists. split; [by apply countLine_spec |].
  rewrite (four_in_window (λ i, holds b token (r + d.1 * i) (c + d.2 * i))).
  unfold alignedFrom. by setoid_rewrite holds_true.
Qed.

Lemma rectangular_first_row rows cols b :
  rectangular rows cols b → (0 < rows)%nat →
  ∃ row0, index b 0 = Some row0 ∧ length row0 = cols.
Proof.
  intros Hrect Hrows.
  destruct (index_in_range b 0) as [row0 Hrow0]; [destruct Hrect; lia |].
  exists row0. split; [done |].
  apply index_Some in Hrow0 as [_ Hrow0]. by eapply rectangular_row.
Qed.

Lemma checkWin_directions rows cols b token r c :
  rectangular rows cols b →
  ∃ v, forReturn
         (λ '(dr, dc),
            const count := countLine token b (Z.of_nat rows) (Z.of_nat cols) r c dr dc in
            Ok (bool_decide (4 ≤ count)))
         directions = Ok v
       ∧ (v = true ↔ ∃ d, d ∈ directions ∧ alignedFrom 4 token b r c d).
Proof.
  intros Hrect.
  assert (Hbody : ∀ d : Z * Z, ∃ v,
    (let '(dr, dc) := d in
     const count := countLine token b (Z.of_nat rows) (Z.of_nat cols) r c dr dc in
     Ok (bool_decide (4 ≤ count))) = Ok v
    ∧ (v = true ↔ alignedFrom 4 token b r c d)).
  { intros [dr dc].
    destruct (countLine_four rows cols b token r c (dr, dc) Hrect)
      as (count & Hcount & Hiff).
    simpl in Hcount. rewrite Hcount. simpl. eexists. split; [done |].
    by rewrite bool_decide_eq_true. }
  edestruct (forReturn_spec
    (λ '(dr, dc),
       const count := countLine token b (Z.of_nat rows) (Z.of_nat cols) r c dr dc in
       Ok (bool_decide (4 ≤ count))) directions) as (v & Hv & Hiff).
  { intros d _. destruct (Hbody d) as (w & Hw & _). eauto. }
  exists v. split; [done |]. rewrite Hiff. split.
  - intros (d & Hd & Htrue). destruct (Hbody d) as (w & Hw & Hline).
    exists d. split; [done |]. apply Hline. congruence.
  - intros (d & Hd & Hline). exists d. split; [done |].
    destruct (Hbody d) as (w & Hw & Hiffw). rewrite Hw. f_equal. by apply Hiffw.
Qed.

Lemma alignedFrom_start n token b r c d :
  0 < n → alignedFrom n token b r c d → cellValue b r c = Ok token.
Proof.
  intros Hn Hline. specialize (Hline 0). rewrite !Z.mul_0_r, !Z.add_0_r in Hline.
  apply Hline. lia.
Qed.

Lemma checkWin_spec rows cols g b :
  rectangular rows cols b → (0 < rows)%nat →
  ∃ v, checkWin g b = Ok v ∧ (v = true ↔ hasLine 4 (token (getActivePlayer g)) b).
Proof.
  intros Hrect Hrows. unfold checkWin.
  destruct (rectangular_first_row rows cols b Hrect Hrows) as (row0 & -> & ->).
  replace (length b) with rows by (by destruct Hrect).
  set (tok := token (getActivePlayer g)).
  set (cellBody := λ r c : Z,
    const v := cellValue b r c in
    if bool_decide (v ≠ tok) then Ok false
    else forReturn
           (λ '(dr, dc),
              const count := countLine tok b (Z.of_nat rows) (Z.of_nat cols) r c dr dc in
              Ok (bool_decide (4 ≤ count)))
           directions).
  assert (Hcell : ∀ r c, 0 ≤ r < Z.of_nat rows → 0 ≤ c < Z.of_nat cols →
    ∃ v, cellBody r c = Ok v
         ∧ (v = true ↔ ∃ d, d ∈ directions ∧ alignedFrom 4 tok b r c d)).
  { intros r c Hr Hc. unfold cellBody.
    destruct (cellValue_defined rows cols b r c Hrect Hr Hc) as [v Hv].
    rewrite Hv. simpl. case_bool_decide as Hne.
    - exists false. split; [done |]. split; [done |].
      intros (d & _ & Hline). apply alignedFrom_start in Hline; [| lia]. congruence.
    - apply checkWin_directions. done. }
  assert (Hrow : ∀ r, 0 ≤ r < Z.of_nat rows →
    ∃ v, forReturn (cellBody r) (seqZ 0 (Z.of_nat cols)) = Ok v
         ∧ (v = true ↔ ∃ c d, d ∈ directions ∧ alignedFrom 4 tok b r c d)).
  { intros r Hr.
    destruct (forReturn_spec (cellBody r) (seqZ 0 (Z.of_nat cols))) as (v & Hv & Hiff).
    { intros c Hc%elem_of_seqZ. destruct (Hcell r c) as (w & Hw & _); [lia.. | eauto]. }
    exists v. split; [done |]. rewrite Hiff. split.
    - intros (c & Hc%elem_of_seqZ & Htrue).
      destruct (Hcell r c) as (w & Hw & Hline); [lia.. |].
      exists c. apply Hline. congruence.
    - intros (c & d & Hd & Hline). exists c.
      pose proof (alignedFrom_start 4 tok b r c d ltac:(lia) Hline) as Hstart.
      apply (cellValue_bounds rows cols) in Hstart; [| done].
      destruct (Hcell r c) as (w & Hw & Hiffw); [lia.. |].
      split; [apply elem_of_seqZ; lia |].
      rewrite Hw. f_equal. apply Hiffw. eauto. }
  destruct (forReturn_spec (λ r, forReturn (cellBody r) (seqZ 0 (Z.of_nat cols)))
              (seqZ 0 (Z.of_nat rows))) as (v & Hv & Hiff).
  { intros r Hr%elem_of_seqZ. destruct (Hrow r) as (w & Hw & _); [lia | eauto]. }
  exists v. split; [done |]. rewrite Hiff. unfold hasLine. split.
  - intros (r & Hr%elem_of_seqZ & Htrue).
    destruct (Hrow r) as (w & Hw & Hline); [lia |].
    exists r. apply Hline. congruence.
  - intros (r & c & d & Hd & Hline). exists r.
    pose proof (alignedFrom_start 4 tok b r c d ltac:(lia) Hline) as Hstart.
    apply (cellValue_bounds rows cols) in Hstart; [| done].
    destruct (Hrow r) as (w & Hw & Hiffw); [lia |].
    split; [apply elem_of_seqZ; lia |].
    rewrite Hw. f_equal. apply Hiffw. eauto.
Qed.

(** ** Columns and gravity *)

Lemma sunk_tail x l : sunk (x :: l) → sunk l.
Proof. intros Hs i j Hij Hj. apply (Hs (S i) (S j)); [lia | done]. Qed.

Lemma sunk_zeros (l : list Z) (i : nat) :
  sunk l → l !! i = Some 0 ↔ (i < zeros l)%nat.
Proof.
  unfold zeros. revert i. induction l as [|x l IH]; intros i Hs.
  - simpl. split; [done | lia].
  - pose proof (sunk_tail _ _ Hs) as Hs'.
    destruct (decide (x = 0)) as [-> | Hx].
    + rewrite filter_cons_True by done. destruct i as [|i]; simpl.
      * split; [lia | done].
      * rewrite (IH i Hs'). lia.
    + rewrite filter_cons_False by done.
      assert (Hnone : zeros l = 0%nat).
      { unfold zeros. destruct (length (filter (λ v : Z, v = 0) l)) as [|n] eqn:Hn; [done |].
        exfalso. apply Hx.
        assert (Hz : l !! 0%nat = Some 0) by (apply IH; [done | lia]).
        specialize (Hs 0%nat 1%nat ltac:(lia) Hz). by injection Hs. }
      unfold zeros in Hnone. rewrite Hnone. split; [| lia].
      intros Hi. destruct i as [|i]; simpl in Hi; [congruence |].
      apply IH in Hi; [lia | done].
Qed.

Lemma columnValues_lookup rows cols b r c v :
  rectangular rows cols b → 0 ≤ r → 0 ≤ c < Z.of_nat cols →
  columnValues c b !! Z.to_nat r = Some v ↔ cellValue b r c = Ok v.
Proof.
  intros Hrect Hr Hc. unfold columnValues. rewrite list_lookup_fmap, cellValue_Ok.
  split.
  - destruct (b !! Z.to_nat r) as [row|] eqn:Hrow; [| done]. simpl.
    pose proof (rectangular_row _ _ _ _ _ Hrect Hrow) as Hlen.
    destruct (index_in_range row c) as [cell Hcell]; [lia |].
    rewrite Hcell. simpl. intros [= <-]. exists row, cell.
    split; [by apply index_Some | done].
  - intros (row & cell & [_ Hrow]%index_Some & Hcell & <-).
    rewrite Hrow. simpl. by rewrite Hcell.
Qed.

Lemma gravity_sunk rows cols b c :
  rectangular rows cols b → 0 ≤ c < Z.of_nat cols →
  gravity b → sunk (columnValues c b).
Proof.
  intros Hrect Hc Hg i j Hij Hj.
  rewrite <- (Nat2Z.id j) in Hj. rewrite <- (Nat2Z.id i).
  rewrite (columnValues_lookup rows cols) in Hj by (done || lia).
  rewrite (columnValues_lookup rows cols) by (done || lia).
  apply (Hg _ _ Hj). lia.
Qed.

(** On a board that obeys gravity the empty cells of a column are exactly
    its first [emptyCount] rows. *)
Lemma gravity_empty_rows rows cols b r c :
  rectangular rows cols b → gravity b →
  0 ≤ c < Z.of_nat cols →
  cellValue b r c = Ok 0 ↔ 0 ≤ r < Z.of_nat (emptyCount c b).
Proof.
  intros Hrect Hg Hc. split.
  - intros Hv. pose proof (cellValue_bounds _ _ _ _ _ _ Hrect Hv) as [Hr _].
    apply (columnValues_lookup rows cols) in Hv; [| done | lia | done].
    apply sunk_zeros in Hv; [| by eapply gravity_sunk].
    unfold emptyCount. lia.
  - intros Hr. apply (columnValues_lookup rows cols); [done | lia | done |].
    apply sunk_zeros; [by eapply gravity_sunk |].
    unfold emptyCount in Hr. lia.
Qed.

Lemma emptyCount_le rows cols b c :
  rectangular rows cols b → (emptyCount c b ≤ rows)%nat.
Proof.
  intros [<- _]. unfold emptyCount, zeros, columnValues.
  etrans; [apply length_filter |]. by rewrite length_fmap.
Qed.

Lemma gravity_lowestEmpty rows cols b c :
  rectangular rows cols b → gravity b →
  0 ≤ c < Z.of_nat cols → emptyCount c b ≠ 0%nat →
  lowestEmpty b c (Z.of_nat (emptyCount c b) - 1).
Proof.
  intros Hrect Hg Hc Hne. split.
  - apply (gravity_empty_rows rows cols); [done.. | lia].
  - intros r' Hr'. apply (gravity_empty_rows rows cols) in Hr'; [lia | done..].
Qed.

(** ** dropToken *)

Lemma filterArray_column cols c (b : Board) :
  Forall (λ row, length row = cols) b → 0 ≤ c < Z.of_nat cols →
  ∃ kept,
    filterArray
      (λ row, match index row c with
              | None => TypeError
              | Some cell => Ok (bool_decide (getValue cell = 0))
              end) b = Ok kept
    ∧ length kept = emptyCount c b.
Proof.
  intros Hall Hc. induction Hall as [|row b Hrow Hall IH]; simpl.
  - by exists [].
  - destruct IH as (kept & -> & Hlen).
    destruct (index_in_range row c) as [cell Hcell]; [lia |].
    rewrite Hcell. eexists. split; [done |].
    unfold emptyCount, zeros, columnValues. rewrite fmap_cons, Hcell. simpl.
    case_bool_decide as Hv.
    + rewrite filter_cons_True by done. simpl. by rewrite Hlen.
    + by rewrite filter_cons_False.
Qed.

Lemma availableCells_length rows cols b c :
  rectangular rows cols b → 0 ≤ c < Z.of_nat cols →
  ∃ cells, availableCells c b = Ok cells ∧ length cells = emptyCount c b.
Proof.
  intros [_ Hall] Hc. unfold availableCells.
  destruct (filterArray_column cols c b Hall Hc) as (kept & -> & Hlen).
  simpl. eexists. split; [done |]. by rewrite length_fmap.
Qed.

Lemma availableCells_out_of_range rows cols b c :
  rectangular rows cols b → (0 < rows)%nat →
  ¬ (0 ≤ c < Z.of_nat cols) →
  availableCells c b = TypeError.
Proof.
  intros [Hrows Hall] Hpos Hc. unfold availableCells.
  destruct b as [|row b]; [simpl in Hrows; lia |].
  apply Forall_cons in Hall as [Hrow _]. simpl.
  rewrite (proj2 (index_None row c)); [done | lia].
Qed.

Lemma dropToken_out_of_range rows cols b c p :
  rectangular rows cols b → (0 < rows)%nat →
  ¬ (0 ≤ c < Z.of_nat cols) →
  dropToken c p b = (TypeError, b).
Proof.
  intros Hrect Hpos Hc. unfold dropToken.
  by rewrite (availableCells_out_of_range rows cols).
Qed.

Lemma dropToken_full rows cols b c p :
  rectangular rows cols b → 0 ≤ c < Z.of_nat cols →
  emptyCount c b = 0%nat →
  dropToken c p b = (Ok (), b).
Proof.
  intros Hrect Hc Hfull. unfold dropToken.
  destruct (availableCells_length rows cols b c Hrect Hc) as (cells & -> & Hlen).
  rewrite Hlen, Hfull. done.
Qed.

Lemma rectangular_write rows cols (b : Board) (k n : nat) row x :
  rectangular rows cols b → b !! k = Some row →
  rectangular rows cols (<[k := <[n := x]> row]> b).
Proof.
  intros [Hrows Hall] Hrow. split; [by rewrite length_insert |].
  apply Forall_insert; [done |]. rewrite length_insert.
  rewrite Forall_lookup in Hall. eauto.
Qed.

Lemma placedAt_write (b : Board) (k n : nat) row x :
  b !! k = Some row → (n < length row)%nat →
  placedAt b (<[k := <[n := x]> row]> b) (Z.of_nat k) (Z.of_nat n) (getValue x).
Proof.
  intros Hrow Hn r c. unfold cellValue, index.
  destruct (bool_decide (0 ≤ r)) eqn:Hr;
    [apply bool_decide_eq_true in Hr
    | apply bool_decide_eq_false in Hr; by rewrite bool_decide_eq_false_2 by lia].
  destruct (decide (Z.to_nat r = k)) as [<- | Hk].
  - rewrite list_lookup_insert_eq by (by eapply lookup_lt_Some). rewrite Hrow.
    destruct (bool_decide (0 ≤ c)) eqn:Hc';
      [apply bool_decide_eq_true in Hc'
      | apply bool_decide_eq_false in Hc'; by rewrite bool_decide_eq_false_2 by lia].
    destruct (decide (Z.to_nat c = n)) as [<- | Hn'].
    + rewrite list_lookup_insert_eq by done. by rewrite bool_decide_eq_true_2 by lia.
    + rewrite list_lookup_insert_ne by done. by rewrite bool_decide_eq_false_2 by lia.
  - rewrite list_lookup_insert_ne by done.
    by rewrite (bool_decide_eq_false_2 (r = Z.of_nat k ∧ c = Z.of_nat n)) by lia.
Qed.

(** A drop into a column that still has an empty cell writes the token at
    row [emptyCount - 1] of that column and nowhere else. *)
Lemma dropToken_accept rows cols b c p :
  rectangular rows cols b → 0 ≤ c < Z.of_nat cols →
  emptyCount c b ≠ 0%nat →
  ∃ b', dropToken c p b = (Ok (), b')
        ∧ rectangular rows cols b'
        ∧ placedAt b b' (Z.of_nat (emptyCount c b) - 1) c p.
Proof.
  intros Hrect Hc Hne. unfold dropToken.
  destruct (availableCells_length rows cols b c Hrect Hc) as (cells & -> & Hlen).
  rewrite Hlen. rewrite bool_decide_eq_false_2 by done. cbv zeta.
  pose proof (emptyCount_le rows cols b c Hrect) as Hle.
  destruct (index_in_range b (Z.of_nat (emptyCount c b) - 1)) as [row Hrow].
  { destruct Hrect as [-> _]. lia. }
  rewrite Hrow. apply index_Some in Hrow as [_ Hrow].
  pose proof (rectangular_row _ _ _ _ _ Hrect Hrow) as Hcols.
  destruct (index_in_range row c) as [cell Hcell]; [lia |].
  rewrite Hcell. eexists. split; [done |]. split.
  - by apply rectangular_write.
  - pose proof (placedAt_write b (Z.to_nat (Z.of_nat (emptyCount c b) - 1))
                  (Z.to_nat c) row (addToken p cell) Hrow ltac:(lia)) as Hw.
    rewrite !Z2Nat.id in Hw by lia. exact Hw.
Qed.

(** The three ways a drop can go on a board with at least one row. *)
Lemma dropToken_cases rows cols b c p :
  rectangular rows cols b → (0 < rows)%nat →
  (¬ (0 ≤ c < Z.of_nat cols) ∧ dropToken c p b = (TypeError, b))
  ∨ (0 ≤ c < Z.of_nat cols ∧ emptyCount c b = 0%nat
     ∧ dropToken c p b = (Ok (), b))
  ∨ (0 ≤ c < Z.of_nat cols ∧ emptyCount c b ≠ 0%nat
     ∧ ∃ b', dropToken c p b = (Ok (), b')
             ∧ rectangular rows cols b'
             ∧ placedAt b b' (Z.of_nat (emptyCount c b) - 1) c p).
Proof.
  intros Hrect Hpos.
  destruct (decide (0 ≤ c < Z.of_nat cols)) as [Hc | Hc].
  - destruct (decide (emptyCount c b = 0%nat)) as [Hfull | Hroom].
    + right; left. eauto using dropToken_full.
    + right; right. eauto using dropToken_accept.
  - left. eauto using dropToken_out_of_range.
Qed.

Lemma gravity_placed rows cols b b' c p :
  rectangular rows cols b → gravity b →
  0 ≤ c < Z.of_nat cols → emptyCount c b ≠ 0%nat →
  placedAt b b' (Z.of_nat (emptyCount c b) - 1) c p →
  gravity b'.
Proof.
  intros Hrect Hg Hc Hne Hplaced r c0 Hv r' Hr'.
  pose proof (gravity_lowestEmpty rows cols b c Hrect Hg Hc Hne) as [Hlow Hmax].
  set (k := Z.of_nat (emptyCount c b) - 1) in *.
  assert (Hold : cellValue b r c0 = Ok 0).
  { rewrite Hplaced in Hv. case_bool_decide as Heq; [| done].
    destruct Heq as [-> ->]. done. }
  pose proof (Hg _ _ Hold r' Hr') as Hold'.
  rewrite Hplaced. case_bool_decide as Heq; [| done].
  destruct Heq as [-> ->].
  assert (r = k) as -> by (apply Hmax in Hold; lia).
  rewrite Hplaced in Hv. by rewrite bool_decide_eq_true_2 in Hv.
Qed.

Lemma dropToken_invariant rows cols b c p :
  rectangular rows cols b → gravity b →
  rectangular rows cols (dropToken c p b).2 ∧ gravity (dropToken c p b).2.
Proof.
  intros Hrect Hg. destruct rows as [|rows].
  - destruct Hrect as [Hlen _]. apply nil_length_inv in Hlen as ->.
    change (dropToken c p []) with (Ok (), [] : Board). simpl.
    split; [split; [done | constructor] |].
    intros r c0 Hv. apply (cellValue_bounds 0 cols) in Hv; [lia |].
    split; [done | constructor].
  - destruct (dropToken_cases (S rows) cols b c p Hrect ltac:(lia))
      as [[_ ->] | [(_ & _ & ->) | (Hc & Hne & b' & -> & Hrect' & Hplaced)]];
      simpl; [done | done |].
    split; [done |]. exact (gravity_placed _ _ _ _ _ _ Hrect Hg Hc Hne Hplaced).
Qed.

(** ** Boards that dropToken can produce *)

Lemma GameBoard_rectangular arguments : rectangular 6 7 (GameBoard arguments).
Proof. split; [done |]. repeat constructor. Qed.

Lemma GameBoard_empty arguments r c v :
  cellValue (GameBoard arguments) r c = Ok v → v = 0.
Proof.
  intros (row & cell & [_ Hrow]%index_Some & [_ Hcell]%index_Some & <-)%cellValue_Ok.
  unfold GameBoard in Hrow.
  apply list_lookup_fmap_Some in Hrow as (i & -> & _).
  apply list_lookup_fmap_Some in Hcell as (j & -> & _). done.
Qed.

Lemma GameBoard_gravity arguments : gravity (GameBoard arguments).
Proof.
  intros r c Hv r' Hr'.
  pose proof (cellValue_bounds _ _ _ _ _ _ (GameBoard_rectangular arguments) Hv)
    as [Hr Hc].
  destruct (cellValue_defined 6 7 (GameBoard arguments) r' c) as [v Hv'];
    [apply GameBoard_rectangular | lia | lia |].
  by rewrite (GameBoard_empty _ _ _ _ Hv') in Hv'.
Qed.

Lemma reachable_invariant b :
  reachable b → rectangular 6 7 b ∧ gravity b.
Proof.
  induction 1 as [arguments | b column player _ [Hrect Hg]].
  - split; [apply GameBoard_rectangular | apply GameBoard_gravity].
  - by apply dropToken_invariant.
Qed.

Lemma emptyCount_placed rows cols b b' c p :
  rectangular rows cols b → gravity b → rectangular rows cols b' →
  0 ≤ c < Z.of_nat cols → emptyCount c b ≠ 0%nat → p ≠ 0 →
  placedAt b b' (Z.of_nat (emptyCount c b) - 1) c p →
  emptyCount c b' = (emptyCount c b - 1)%nat.
Proof.
  intros Hrect Hg Hrect' Hc Hne Hp Hplaced.
  pose proof (gravity_placed _ _ _ _ _ _ Hrect Hg Hc Hne Hplaced) as Hg'.
  assert (Hiff : ∀ r, 0 ≤ r < Z.of_nat (emptyCount c b') ↔
                      0 ≤ r < Z.of_nat (emptyCount c b) - 1).
  { intros r. rewrite <- (gravity_empty_rows rows cols b' r c) by done.
    rewrite Hplaced. case_bool_decide as Heq.
    - destruct Heq as [-> _]. split; [intros [=]; done | lia].
    - rewrite (gravity_empty_rows rows cols b r c) by done.
      split; [intros ?; split; [lia |] | lia].
      destruct (decide (r = Z.of_nat (emptyCount c b) - 1)); [| lia].
      exfalso. apply Heq. done. }
  destruct (decide (emptyCount c b' < emptyCount c b - 1)%nat) as [Hlt | Hge].
  - specialize (Hiff (Z.of_nat (emptyCount c b'))). lia.
  - specialize (Hiff (Z.of_nat (emptyCount c b) - 1)). lia.
Qed.

Lemma dropMany_stack rows cols c tokens : ∀ b,
  rectangular rows cols b → gravity b → 0 ≤ c < Z.of_nat cols →
  Forall (λ p, p ≠ 0) tokens → (length tokens ≤ emptyCount c b)%nat →
  ∃ b', dropMany c tokens b = Some b'
        ∧ rectangular rows cols b' ∧ gravity b'
        ∧ emptyCount c b' = (emptyCount c b - length tokens)%nat
        ∧ (∀ r c', c' ≠ c ∨ Z.of_nat (emptyCount c b) ≤ r →
                   cellValue b' r c' = cellValue b r c')
        ∧ (∀ (i : nat) p, tokens !! i = Some p →
             cellValue b' (Z.of_nat (emptyCount c b) - 1 - Z.of_nat i) c = Ok p).
Proof.
  induction tokens as [|p rest IH]; intros b Hrect Hg Hc Hnz Hlen.
  - exists b. simpl. do 3 (split; [done |]). split; [lia |]. split; done.
  - simpl in Hlen. apply Forall_cons in Hnz as [Hp Hnz].
    assert (Hne : emptyCount c b ≠ 0%nat) by lia.
    destruct (availableCells_length rows cols b c Hrect Hc) as (cells & Hcells & Hn).
    destruct (dropToken_accept rows cols b c p Hrect Hc Hne)
      as (b1 & Hdrop & Hrect1 & Hplaced).
    pose proof (gravity_placed _ _ _ _ _ _ Hrect Hg Hc Hne Hplaced) as Hg1.
    pose proof (emptyCount_placed _ _ _ _ _ _ Hrect Hg Hrect1 Hc Hne Hp Hplaced)
      as Hcount.
    destruct (IH b1 Hrect1 Hg1 Hc Hnz ltac:(lia))
      as (b' & Hmany & Hrect' & Hg' & Hcount' & Hframe & Hcontent).
    exists b'. simpl. rewrite Hcells, Hdrop.
    destruct cells as [|cell cells]; [simpl in Hn; lia |].
    split; [done |]. split; [done |]. split; [done |].
    split; [lia |]. split.
    + intros r c' Hout. rewrite Hframe by lia. rewrite Hplaced.
      rewrite bool_decide_eq_false_2; [done | lia].
    + intros [|i] q Hq; simpl in Hq.
      * injection Hq as <-. rewrite Hframe by lia. rewrite Hplaced.
        rewrite bool_decide_eq_true_2; [done | lia].
      * specialize (Hcontent i q Hq). rewrite <- Hcontent. f_equal. lia.
Qed.

(** ** Tie detection *)

Lemma checkTie_spec rows cols b :
  rectangular rows cols b → (0 < rows)%nat →
  ∃ t, checkTie b = Ok t ∧ (t = true ↔ full b).
Proof.
  intros Hrect Hrows. unfold checkTie.
  destruct (rectangular_first_row rows cols b Hrect Hrows) as (row0 & -> & ->).
  replace (length b) with rows by (by destruct Hrect).
  set (w := λ r c : Z, if holds b 0 r c then 1 else 0).
  assert (Hw : ∀ r c, 0 ≤ w r c) by (intros r c; unfold w; by destruct (holds b 0 r c)).
  assert (Hinner : ∀ count r, r ∈ seqZ 0 (Z.of_nat rows) →
    forAccum
      (λ count c,
         const v := cellValue b r c in
         Ok (if bool_decide (v = 0) then count + 1 else count))
      count (seqZ 0 (Z.of_nat cols))
    = Ok (count + total (w r) (seqZ 0 (Z.of_nat cols)))).
  { intros count r Hr%elem_of_seqZ. apply forAccum_total.
    intros n c Hc%elem_of_seqZ. unfold w, holds.
    destruct (cellValue_defined rows cols b r c Hrect) as [v ->]; [lia.. |].
    simpl. destruct (bool_decide (v = 0)); f_equal; lia. }
  rewrite (forAccum_total _ (λ r, total (w r) (seqZ 0 (Z.of_nat cols)))) by done.
  simpl. eexists. split; [done |].
  rewrite bool_decide_eq_true, Z.add_0_l.
  rewrite total_zero by (intros r _; by apply total_nonneg).
  unfold full. split.
  - intros Hzero r c Hv.
    pose proof (cellValue_bounds _ _ _ _ _ _ Hrect Hv) as [Hr Hc].
    specialize (Hzero r ltac:(apply elem_of_seqZ; lia)).
    rewrite total_zero in Hzero by done.
    specialize (Hzero c ltac:(apply elem_of_seqZ; lia)).
    unfold w in Hzero. rewrite (proj2 (holds_true b 0 r c) Hv) in Hzero. done.
  - intros Hfull r _. apply total_zero; [done |]. intros c _. unfold w.
    destruct (holds b 0 r c) eqn:Hh; [| done].
    apply holds_true in Hh. by apply Hfull in Hh.
Qed.

(** ** One round *)

Lemma roundEnd_board won tied g : board (roundEnd won tied g) = board g.
Proof. by destruct won, tied. Qed.

Lemma roundEnd_players won tied g : players (roundEnd won tied g) = players g.
Proof. by destruct won, tied. Qed.

Lemma roundEnd_activePlayer won tied g :
  activePlayer (roundEnd won tied g) =
  if won || tied then activePlayer g else otherSeat (activePlayer g).
Proof. destruct won, tied; try done. simpl. by destruct (activePlayer g). Qed.

Lemma playRound_throws column g b' :
  dropToken column (token (getActivePlayer g)) (board g) = (TypeError, b') →
  playRound column g = (TypeError, withBoard b' (announce column g)).
Proof.
  intros Hdrop. unfold playRound. cbv zeta.
  change (board (log _ g)) with (board g).
  change (getActivePlayer (log ?o g)) with (getActivePlayer g).
  by rewrite Hdrop.
Qed.

Lemma playRound_outcome rows cols column g b' :
  rectangular rows cols b' → (0 < rows)%nat →
  dropToken column (token (getActivePlayer g)) (board g) = (Ok (), b') →
  ∃ won tied,
    checkWin g b' = Ok won
    ∧ (won = true ↔ hasLine 4 (token (getActivePlayer g)) b')
    ∧ checkTie b' = Ok tied
    ∧ (tied = true ↔ full b')
    ∧ playRound column g
      = (Ok (), roundEnd won tied (withBoard b' (announce column g))).
Proof.
  intros Hrect Hrows Hdrop.
  destruct (checkWin_spec rows cols g b' Hrect Hrows) as (won & Hwin & Hwon).
  destruct (checkTie_spec rows cols b' Hrect Hrows) as (tied & Htie & Htied).
  exists won, tied. do 4 (split; [done |]).
  unfold playRound. cbv zeta.
  change (board (log _ g)) with (board g).
  change (getActivePlayer (log ?o g)) with (getActivePlayer g).
  rewrite Hdrop.
  change (checkWin (withBoard b' ?g0) (getBoard (board (withBoard b' ?g0))))
    with (checkWin g b').
  change (checkTie (getBoard (board (withBoard b' ?g0)))) with (checkTie b').
  rewrite Hwin, Htie. by destruct won, tied.
Qed.

Lemma playRound_board column g :
  board (playRound column g).2
  = (dropToken column (token (getActivePlayer g)) (board g)).2.
Proof.
  unfold playRound. cbv zeta.
  change (board (log _ g)) with (board g).
  change (getActivePlayer (log ?o g)) with (getActivePlayer g).
  destruct (dropToken column (token (getActivePlayer g)) (board g)) as [[[]|] b];
    [| done].
  destruct (checkWin _ _) as [[]|]; [done | | done].
  by destruct (checkTie _) as [[]|].
Qed.

Lemma playRound_players column g : players (playRound column g).2 = players g.
Proof.
  unfold playRound. cbv zeta.
  destruct (dropToken _ _ _) as [[[]|] b]; [| done].
  destruct (checkWin _ _) as [[]|]; [done | | done].
  by destruct (checkTie _) as [[]|].
Qed.

(** ** Matches *)

Lemma wellFormed_token g :
  wellFormed g → token (getActivePlayer g) = 1 ∨ token (getActivePlayer g) = 2.
Proof.
  intros (_ & _ & H1 & H2). unfold getActivePlayer, playerAt.
  destruct (activePlayer g); auto.
Qed.

(** A drop leaves a cell alone or fills it, and it fills only empty cells. *)
Lemma dropToken_step rows cols b column p r c v :
  rectangular rows cols b → gravity b →
  cellValue b r c = Ok v →
  cellValue (dropToken column p b).2 r c = Ok v
  ∨ (v = 0 ∧ cellValue (dropToken column p b).2 r c = Ok p).
Proof.
  intros Hrect Hg Hv.
  assert (0 < rows)%nat as Hrows.
  { apply (cellValue_bounds rows cols) in Hv; [lia | done]. }
  destruct (dropToken_cases rows cols b column p Hrect Hrows)
    as [[_ ->] | [(_ & _ & ->) | (Hc & Hne & b' & -> & _ & Hplaced)]];
    simpl; [by left | by left |].
  rewrite Hplaced. case_bool_decide as Heq; [| by left].
  destruct Heq as [-> ->]. right. split; [| done].
  destruct (gravity_lowestEmpty rows cols b column Hrect Hg Hc Hne) as [Hlow _].
  congruence.
Qed.

Lemma wellFormed_start playerOneName playerTwoName :
  wellFormed (GameController playerOneName playerTwoName).
Proof.
  split; [apply (reachable_fresh []) |]. split; [| done].
  intros r c v Hv. left. by eapply (GameBoard_empty []).
Qed.

Lemma wellFormed_playRound column g :
  wellFormed g → wellFormed (playRound column g).2.
Proof.
  intros Hwf. pose proof (wellFormed_token g Hwf) as Htok.
  destruct Hwf as (Hreach & Hvals & H1 & H2).
  unfold wellFormed. rewrite playRound_board, playRound_players.
  split; [by constructor |]. split; [| done].
  destruct (reachable_invariant _ (reachable_drop _ column
              (token (getActivePlayer g)) Hreach)) as [Hrect' _].
  destruct (reachable_invariant _ Hreach) as [Hrect Hg].
  intros r c v Hv.
  pose proof (cellValue_bounds _ _ _ _ _ _ Hrect' Hv) as [Hr Hc].
  destruct (cellValue_defined 6 7 (board g) r c Hrect Hr Hc) as [v0 Hv0].
  destruct (dropToken_step 6 7 (board g) column (token (getActivePlayer g))
              r c v0 Hrect Hg Hv0) as [Hsame | [_ Hnew]].
  - rewrite Hsame in Hv. injection Hv as <-. eauto.
  - rewrite Hnew in Hv. injection Hv as <-. lia.
Qed.

Lemma wellFormed_playRounds columns g :
  wellFormed g → wellFormed (playRounds columns g).
Proof.
  revert g. induction columns as [|column columns IH]; intros g Hwf; [done |].
  apply IH. by apply wellFormed_playRound.
Qed.

Lemma playRound_keeps column g r c v :
  wellFormed g → cellValue (board g) r c = Ok v → v ≠ 0 →
  cellValue (board (playRound column g).2) r c = Ok v.
Proof.
  intros (Hreach & _) Hv Hnz. rewrite playRound_board.
  destruct (reachable_invariant _ Hreach) as [Hrect Hg].
  destruct (dropToken_step 6 7 (board g) column (token (getActivePlayer g))
              r c v Hrect Hg Hv) as [Hsame | [-> _]]; done.
Qed.

Lemma playRounds_keeps columns g r c v :
  wellFormed g → cellValue (board g) r c = Ok v → v ≠ 0 →
  cellValue (board (playRounds columns g)) r c = Ok v.
Proof.
  revert g. induction columns as [|column columns IH]; intros g Hwf Hv Hnz; [done |].
  apply IH; [by apply wellFormed_playRound | by apply playRound_keeps | done].
Qed.

Lemma emptyCount_zero rows cols b c :
  rectangular rows cols b → 0 ≤ c < Z.of_nat cols →
  emptyCount c b = 0%nat ↔ ∀ r, cellValue b r c ≠ Ok 0.
Proof.
  intros Hrect Hc. unfold emptyCount, zeros. split.
  - intros Hnil%nil_length_inv r Hv.
    pose proof (cellValue_bounds _ _ _ _ _ _ Hrect Hv) as [Hr _].
    apply (columnValues_lookup rows cols) in Hv; [| done | lia | done].
    apply (filter_nil_not_elem_of _ _ 0) in Hnil; [| done].
    apply Hnil, list_elem_of_lookup. eauto.
  - intros Hnone.
    destruct (filter (λ v : Z, v = 0) (columnValues c b)) as [|x l] eqn:Hf; [done |].
    assert (Hx : x ∈ filter (λ v : Z, v = 0) (columnValues c b))
      by (rewrite Hf; left).
    apply list_elem_of_filter in Hx as [-> [i Hi]%list_elem_of_lookup].
    exfalso. apply (Hnone (Z.of_nat i)).
    apply (columnValues_lookup rows cols); [done | lia | done |].
    by rewrite Nat2Z.id.
Qed.

Lemma gravity_dropFillsLowest rows cols b column player :
  rectangular rows cols b → gravity b →
  0 ≤ column < Z.of_nat cols → emptyCount column b ≠ 0%nat →
  dropFillsLowest b column player.
Proof.
  intros Hrect Hg Hc Hne.
  destruct (dropToken_accept rows cols b column player Hrect Hc Hne)
    as (b' & Hdrop & _ & Hplaced).
  exists (Z.of_nat (emptyCount column b) - 1), b'.
  split; [by eapply gravity_lowestEmpty | done].
Qed.

(** An accepted drop: the filter of [dropToken] kept at least one cell. *)
Lemma accepted_column rows cols b column cells :
  rectangular rows cols b → (0 < rows)%nat →
  availableCells column b = Ok cells → cells ≠ [] →
  0 ≤ column < Z.of_nat cols ∧ emptyCount column b ≠ 0%nat.
Proof.
  intros Hrect Hrows Hcells Hne.
  destruct (decide (0 ≤ column < Z.of_nat cols)) as [Hc | Hc].
  - split; [done |].
    destruct (availableCells_length rows cols b column Hrect Hc) as (cells' & Hc' & Hlen).
    rewrite Hcells in Hc'. injection Hc' as <-. rewrite <- Hlen.
    by destruct cells.
  - by rewrite (availableCells_out_of_range rows cols) in Hcells.
Qed.

(** C2. Every board reachable from a fresh one through [dropToken] calls
    obeys gravity: in no column is there an empty cell under an occupied
    one.  On such a board every accepted drop marks exactly the empty cell
    of greatest row index of its column.  Hence dropping N tokens (N ≤ 6)
    into a column that is still empty succeeds N times and leaves exactly
    the bottom N rows of that column occupied. *)
Theorem gravity_of_reachable_boards (b : Board) :
  reachable b →
  gravity b
  ∧ (∀ column player cells,
       availableCells column b = Ok cells → cells ≠ [] →
       dropFillsLowest b column player)
  ∧ (∀ column tokens,
       0 ≤ column < 7 →
       (∀ r, 0 ≤ r < 6 → cellValue b r column = Ok 0) →
       Forall (λ p, p ≠ 0) tokens → (length tokens ≤ 6)%nat →
       ∃ b', dropMany column tokens b = Some b'
             ∧ ∀ r, 0 ≤ r < 6 →
                    cellValue b' r column ≠ Ok 0 ↔ 6 - Z.of_nat (length tokens) ≤ r).
Proof.
  intros Hreach. destruct (reachable_invariant b Hreach) as [Hrect Hg].
  split; [done |]. split.
  - intros column player cells Hcells Hne.
    destruct (accepted_column 6 7 b column cells Hrect ltac:(lia) Hcells Hne)
      as [Hc Hroom].
    by eapply gravity_dropFillsLowest.
  - intros column tokens Hc Hempty Hnz Hlen.
    assert (Hcount : emptyCount column b = 6%nat).
    { pose proof (emptyCount_le 6 7 b column Hrect).
      pose proof (proj1 (gravity_empty_rows 6 7 b 5 column Hrect Hg Hc)
                    (Hempty 5 ltac:(lia))). lia. }
    destruct (dropMany_stack 6 7 column tokens b Hrect Hg Hc Hnz ltac:(lia))
      as (b' & Hmany & Hrect' & Hg' & Hcount' & _ & _).
    exists b'. split; [done |]. intros r Hr.
    rewrite (gravity_empty_rows 6 7 b' r column Hrect' Hg' Hc). lia.
Qed.

Lemma gravity_of_reachable_boards_witness :
  ∃ b', dropMany 3 [1; 2; 1] (GameBoard []) = Some b'
        ∧ ∀ r, 0 ≤ r < 6 → cellValue b' r 3 ≠ Ok 0 ↔ 6 - 3 ≤ r.
Proof.
  apply (proj2 (proj2 (gravity_of_reachable_boards (GameBoard [])
                         (reachable_fresh [])))
           3 [1; 2; 1]).
  - lia.
  - intros r Hr.
    assert (r = 0 ∨ r = 1 ∨ r = 2 ∨ r = 3 ∨ r = 4 ∨ r = 5)
      as [-> | [-> | [-> | [-> | [-> | ->]]]]] by lia; reflexivity.
  - repeat constructor; lia.
  - simpl. lia.
Defined.

(** C1. On a rectangular board with at least one row [checkWin] returns
    [true] exactly when four consecutive cells along one of the directions
    (0,1), (1,0), (1,1), (1,-1), starting from some cell, all hold the
    active player's token, and returns [false] otherwise.  In particular a
    line in each of the four orientations is recognised, and a board on
    which the active player's longest line has exactly three cells gives
    [false]. *)
Theorem checkWin_four_in_a_row (rows cols : nat) (g : Game) (b : Board) :
  rectangular rows cols b → (0 < rows)%nat →
  let tok := token (getActivePlayer g) in
  (checkWin g b = Ok true ↔ hasLine 4 tok b)
  ∧ (checkWin g b = Ok false ↔ ¬ hasLine 4 tok b)
  ∧ (∀ r c, alignedFrom 4 tok b r c (0, 1) → checkWin g b = Ok true)
  ∧ (∀ r c, alignedFrom 4 tok b r c (1, 0) → checkWin g b = Ok true)
  ∧ (∀ r c, alignedFrom 4 tok b r c (1, 1) → checkWin g b = Ok true)
  ∧ (∀ r c, alignedFrom 4 tok b r c (1, -1) → checkWin g b = Ok true)
  ∧ (longestLineIs 3 tok b → checkWin g b = Ok false).
Proof.
  intros Hrect Hrows tok.
  destruct (checkWin_spec rows cols g b Hrect Hrows) as (won & Hwin & Hwon).
  fold tok in Hwon. rewrite Hwin.
  assert (Htrue : Ok won = Ok true ↔ hasLine 4 tok b).
  { rewrite <- Hwon. split; [by intros [= ->] | by intros ->]. }
  assert (Hfalse : Ok won = Ok false ↔ ¬ hasLine 4 tok b).
  { rewrite <- Hwon. destruct won.
    - split; [done |]. intros Hno. by destruct Hno.
    - split; [| done]. intros _ [=]. }
  assert (Hdir : ∀ d r c, d ∈ directions → alignedFrom 4 tok b r c d →
                          Ok won = Ok true).
  { intros d r c Hd Hline. apply Htrue. by exists r, c, d. }
  split; [done |]. split; [done |].
  assert (Hin : ∀ d, d = (0, 1) ∨ d = (1, 0) ∨ d = (1, 1) ∨ d = (1, -1) →
                     d ∈ directions).
  { intros d Hd. unfold directions. rewrite !elem_of_cons. tauto. }
  do 4 (split; [intros r c; apply Hdir, Hin; tauto |]).
  intros [_ Hno]. by apply Hfalse.
Qed.

Lemma checkWin_four_in_a_row_witness :
  let g := playRounds [0; 6; 0; 6; 0; 6] (GameController None None) in
  checkWin g (board g) = Ok false ↔ ¬ hasLine 4 1 (board g).
Proof.
  intros g.
  refine (proj1 (proj2 (checkWin_four_in_a_row 6 7 g (board g) _ _))).
  - vm_compute. split; [reflexivity | repeat constructor].
  - lia.
Defined.

(** The four orientations and the three-in-a-row case on concrete boards,
    player one to move. *)
Example checkWin_horizontal :
  checkWin (GameController None None)
    (boardOf [[0;0;0;0;0;0;0]; [0;0;0;0;0;0;0]; [0;0;0;0;0;0;0];
              [0;0;0;0;0;0;0]; [0;0;0;2;2;2;0]; [0;0;0;1;1;1;1]]) = Ok true.
Proof. reflexivity. Qed.

Example checkWin_vertical :
  checkWin (GameController None None)
    (boardOf [[0;0;0;0;0;0;0]; [0;0;0;0;0;0;0]; [1;0;0;0;0;0;0];
              [1;0;0;0;0;0;2]; [1;0;0;0;0;0;2]; [1;0;0;0;0;0;2]]) = Ok true.
Proof. reflexivity. Qed.

Example checkWin_diagonal_down_right :
  checkWin (GameController None None)
    (boardOf [[0;0;0;0;0;0;0]; [0;0;0;0;0;0;0]; [1;0;0;0;0;0;0];
              [2;1;0;0;0;0;0]; [2;2;1;0;0;0;0]; [1;2;2;1;0;0;0]]) = Ok true.
Proof. reflexivity. Qed.

Example checkWin_diagonal_down_left :
  checkWin (GameController None None)
    (boardOf [[0;0;0;0;0;0;0]; [0;0;0;0;0;0;0]; [0;0;0;1;0;0;0];
              [0;0;1;2;0;0;0]; [0;1;2;2;0;0;0]; [1;2;2;1;0;0;0]]) = Ok true.
Proof. reflexivity. Qed.

Example checkWin_three_aligned :
  checkWin (GameController None None)
    (boardOf [[0;0;0;0;0;0;0]; [0;0;0;0;0;0;0]; [0;0;0;0;0;0;0]; [1;0;0;0;0;0;0];
              [1;0;0;1;0;0;0]; [1;2;1;2;1;1;1]]) = Ok false.
Proof. reflexivity. Qed.

(** C4 (as stated, refuted).  On the fresh 6 × 7 board a drop into column 7
    or column -1 does not return: [row[column]] is [undefined] and the call
    of [getValue] on it throws. *)
Lemma dropToken_outside_does_not_return :
  (dropToken 7 1 (GameBoard [])).1 = TypeError
  ∧ (dropToken (-1) 1 (GameBoard [])).1 = TypeError.
Proof. split; reflexivity. Qed.

(** C4 (amended).  For a column index outside [0, COLUMNS) and any
    rectangular board with at least one row, [dropToken] throws a TypeError
    before it writes anything: no cell of the grid changes. *)
Theorem dropToken_outside_throws (rows cols : nat) (b : Board) (column player : Z) :
  rectangular rows cols b → (0 < rows)%nat →
  ¬ (0 ≤ column < Z.of_nat cols) →
  availableCells column b = TypeError
  ∧ dropToken column player b = (TypeError, b).
Proof.
  intros Hrect Hrows Hc.
  split; [by eapply availableCells_out_of_range | by eapply dropToken_out_of_range].
Qed.

Lemma dropToken_outside_throws_witness :
  availableCells 7 (GameBoard []) = TypeError
  ∧ dropToken 7 2 (GameBoard []) = (TypeError, GameBoard []).
Proof.
  apply (dropToken_outside_throws 6 7 (GameBoard []) 7 2).
  - apply GameBoard_rectangular.
  - lia.
  - lia.
Defined.

(** C6. When a valid column has no empty cell, the filter of [dropToken]
    keeps nothing, the call returns at once and the board is left exactly
    as it was. *)
Theorem dropToken_full_column (rows cols : nat) (b : Board) (column player : Z) :
  rectangular rows cols b →
  0 ≤ column < Z.of_nat cols →
  (∀ r, 0 ≤ r < Z.of_nat rows → cellValue b r column ≠ Ok 0) →
  availableCells column b = Ok []
  ∧ dropToken column player b = (Ok (), b).
Proof.
  intros Hrect Hc Hfull.
  assert (Hcount : emptyCount column b = 0%nat).
  { apply (emptyCount_zero rows cols); [done.. |]. intros r Hv.
    pose proof (cellValue_bounds _ _ _ _ _ _ Hrect Hv) as [Hr _].
    by apply (Hfull r). }
  split; [| by eapply dropToken_full].
  destruct (availableCells_length rows cols b column Hrect Hc) as (cells & -> & Hlen).
  rewrite Hcount in Hlen. by apply nil_length_inv in Hlen as ->.
Qed.

Lemma dropToken_full_column_witness :
  let b := (playRounds [0; 0; 0; 0; 0; 0] (GameController None None)).(board) in
  availableCells 0 b = Ok [] ∧ dropToken 0 1 b = (Ok (), b).
Proof.
  intros b. apply (dropToken_full_column 6 7 b 0 1).
  - vm_compute. split; [reflexivity | repeat constructor].
  - lia.
  - intros r Hr.
    assert (r = 0 ∨ r = 1 ∨ r = 2 ∨ r = 3 ∨ r = 4 ∨ r = 5)
      as [-> | [-> | [-> | [-> | [-> | ->]]]]] by lia; vm_compute; discriminate.
Defined.

(** Gravity is what makes the count of empty cells a row index.  The board
    [floating] is not one that drops can produce; were its cells set by
    hand, the filter would keep one cell of column 0, [lowestRow] would be
    0, and the occupied top cell would be overwritten while the empty
    bottom cell stayed empty. *)
Lemma dropToken_floating_column : ¬ dropFillsLowest floating 0 2.
Proof.
  intros (r & b' & [Hlow Hmax] & Hdrop & Hplaced).
  assert (Hr : r = 5).
  { pose proof (Hmax 5 eq_refl).
    apply (cellValue_bounds 6 7) in Hlow; [lia |].
    split; [reflexivity | repeat constructor]. }
  subst r. injection Hdrop as <-.
  specialize (Hplaced 5 0). by vm_compute in Hplaced.
Qed.

(** On a rectangular board that obeys gravity, a drop into a valid column
    with an empty cell changes the lowest empty cell of that column from 0
    to [player]; every other cell keeps its value and the board keeps its
    shape. *)
Lemma gravity_drop_changes_one_cell
    (rows cols : nat) (b : Board) (column player r0 : Z) :
  rectangular rows cols b → gravity b →
  0 ≤ column < Z.of_nat cols →
  cellValue b r0 column = Ok 0 →
  ∃ r b', lowestEmpty b column r
          ∧ dropToken column player b = (Ok (), b')
          ∧ cellValue b r column = Ok 0
          ∧ cellValue b' r column = Ok player
          ∧ (∀ r' c', (r', c') ≠ (r, column) → cellValue b' r' c' = cellValue b r' c')
          ∧ rectangular rows cols b'.
Proof.
  intros Hrect Hg Hc Hroom.
  assert (Hne : emptyCount column b ≠ 0%nat).
  { intros Hzero. by apply (emptyCount_zero rows cols b column Hrect Hc) in Hroom. }
  destruct (dropToken_accept rows cols b column player Hrect Hc Hne)
    as (b' & Hdrop & Hrect' & Hplaced).
  pose proof (gravity_lowestEmpty rows cols b column Hrect Hg Hc Hne) as Hlow.
  exists (Z.of_nat (emptyCount column b) - 1), b'.
  split; [done |]. split; [done |]. split; [apply Hlow |]. split.
  - rewrite Hplaced. by rewrite bool_decide_eq_true_2.
  - split; [| done]. intros r' c' Hother. rewrite Hplaced.
    rewrite bool_decide_eq_false_2; [done |]. intros [-> ->]. done.
Qed.

(** C10. Every accepted drop modifies exactly one cell.  On every board
    the program can hold, that is every board that [dropToken] calls
    produce from a fresh one (the boards of all matches among them), a
    drop into a column of the board that still has an empty cell returns,
    changes the lowest empty cell of that column from 0 to [player], and
    leaves every other cell and the 6 by 7 shape as they were. *)
Theorem dropToken_changes_one_cell (b : Board) (column player r0 : Z) :
  reachable b →
  0 ≤ column < 7 →
  cellValue b r0 column = Ok 0 →
  ∃ r b', lowestEmpty b column r
          ∧ dropToken column player b = (Ok (), b')
          ∧ cellValue b r column = Ok 0
          ∧ cellValue b' r column = Ok player
          ∧ (∀ r' c', (r', c') ≠ (r, column) → cellValue b' r' c' = cellValue b r' c')
          ∧ rectangular 6 7 b'
          ∧ reachable b'.
Proof.
  intros Hreach Hc Hroom.
  destruct (reachable_invariant b Hreach) as [Hrect Hg].
  destruct (gravity_drop_changes_one_cell 6 7 b column player r0 Hrect Hg Hc Hroom)
    as (r & b' & Hlow & Hdrop & Hzero & Hnew & Hframe & Hrect').
  exists r, b'. do 6 (split; [done |]).
  replace b' with (dropToken column player b).2 by (by rewrite Hdrop).
  by constructor.
Qed.

Lemma dropToken_changes_one_cell_witness :
  let b := board (playRounds [3; 3; 2] (GameController None None)) in
  ∃ r b', lowestEmpty b 3 r
          ∧ dropToken 3 2 b = (Ok (), b')
          ∧ cellValue b r 3 = Ok 0
          ∧ cellValue b' r 3 = Ok 2
          ∧ (∀ r' c', (r', c') ≠ (r, 3) → cellValue b' r' c' = cellValue b r' c')
          ∧ rectangular 6 7 b'
          ∧ reachable b'.
Proof.
  intros b. apply (dropToken_changes_one_cell b 3 2 0).
  - apply (wellFormed_playRounds [3; 3; 2] _ (wellFormed_start None None)).
  - lia.
  - reflexivity.
Defined.

(** C3. The code at the input where it departs from the claim.  After six
    rounds in column 0 that column is full and player one is to move.  One
    more [playRound(0)] finds no available cell, so by the comment in
    [dropToken] the move is invalid and execution stops there; the board is
    indeed unchanged, yet [playRound] goes on to [switchPlayerTurn] and
    the turn passes to player two, where the claim keeps it with player
    one. *)
Lemma playRound_full_column_passes_turn :
  let g := playRounds [0; 0; 0; 0; 0; 0] (GameController None None) in
  availableCells 0 (board g) = Ok []
  ∧ board (playRound 0 g).2 = board g
  ∧ activePlayer g = Seat0
  ∧ activePlayer (playRound 0 g).2 = Seat1.
Proof. vm_compute. repeat split. Qed.

(** What [playRound] does keep of the turn rule, on a rectangular board
    with at least one row: an accepted drop that leaves neither a win of
    the mover nor a full board passes the turn to the other player; a
    column outside the board makes [playRound] throw, with the board and
    the active player as before; a full column leaves the board and the
    players as they were. *)
Theorem playRound_turn (rows cols : nat) (g : Game) (column : Z) :
  rectangular rows cols (board g) → (0 < rows)%nat →
  let tok := token (getActivePlayer g) in
  let g' := (playRound column g).2 in
  (∀ cells,
     availableCells column (board g) = Ok cells → cells ≠ [] →
     ¬ hasLine 4 tok (board g') → ¬ full (board g') →
     (playRound column g).1 = Ok ()
     ∧ activePlayer g' = otherSeat (activePlayer g)
     ∧ players g' = players g)
  ∧ (¬ (0 ≤ column < Z.of_nat cols) →
     (playRound column g).1 = TypeError
     ∧ board g' = board g
     ∧ activePlayer g' = activePlayer g
     ∧ players g' = players g)
  ∧ (availableCells column (board g) = Ok [] →
     (playRound column g).1 = Ok ()
     ∧ board g' = board g
     ∧ players g' = players g).
Proof.
  intros Hrect Hrows tok g'.
  assert (Hend : ∀ b', rectangular rows cols b' →
            dropToken column tok (board g) = (Ok (), b') →
            (playRound column g).1 = Ok ()
            ∧ board g' = b'
            ∧ (activePlayer g' = activePlayer g ↔ hasLine 4 tok b' ∨ full b')).
  { intros b' Hrect' Hdrop.
    destruct (playRound_outcome rows cols column g b' Hrect' Hrows Hdrop)
      as (won & tied & _ & Hwon & _ & Htied & Hplay).
    unfold g'. rewrite Hplay. simpl.
    rewrite roundEnd_board, roundEnd_activePlayer. simpl.
    split; [done |]. split; [done |].
    fold tok in Hwon. rewrite <- Hwon, <- Htied.
    destruct won, tied, (activePlayer g); simpl; intuition congruence. }
  assert (Hplayers : players g' = players g) by apply playRound_players.
  split; [| split].
  - intros cells Hcells Hne Hnowin Hnotfull.
    destruct (accepted_column rows cols (board g) column cells Hrect Hrows Hcells Hne)
      as [Hc Hroom].
    destruct (dropToken_accept rows cols (board g) column tok Hrect Hc Hroom)
      as (b' & Hdrop & Hrect' & _).
    destruct (Hend b' Hrect' Hdrop) as (Hret & Hboard & Hturn).
    split; [done |]. split; [| done].
    rewrite Hboard in Hnowin, Hnotfull.
    destruct (activePlayer g') eqn:Hs', (activePlayer g) eqn:Hs; simpl; try done;
      exfalso; tauto.
  - intros Hc.
    pose proof (dropToken_out_of_range rows cols (board g) column tok Hrect Hrows Hc)
      as Hdrop.
    unfold g'. rewrite (playRound_throws column g (board g)) by done. done.
  - intros Hcells.
    assert (Hdrop : dropToken column tok (board g) = (Ok (), board g)).
    { unfold dropToken. by rewrite Hcells. }
    destruct (Hend (board g) Hrect Hdrop) as (Hret & Hboard & Hturn). done.
Qed.

Lemma playRound_turn_witness :
  let g := GameController None None in
  (playRound 9 g).1 = TypeError
  ∧ board (playRound 9 g).2 = board g
  ∧ activePlayer (playRound 9 g).2 = activePlayer g
  ∧ players (playRound 9 g).2 = players g.
Proof.
  intros g.
  refine (proj1 (proj2 (playRound_turn 6 7 g 9 _ _)) _).
  - apply GameBoard_rectangular.
  - lia.
  - lia.
Defined.

(** C5. [checkTie] returns [true] exactly when no cell of the board is
    empty.  [playRound] consults it only when [checkWin] gave [false]: when
    the board after the drop is full and holds a line of the active player,
    the round prints the board and the "won!" line and nothing else, and
    the active player stays. *)
Theorem win_takes_precedence :
  (∀ rows cols b,
     rectangular rows cols b → (0 < rows)%nat →
     (checkTie b = Ok true ↔ full b) ∧ (checkTie b = Ok false ↔ ¬ full b))
  ∧ (∀ rows cols g column b',
       rectangular rows cols b' → (0 < rows)%nat →
       dropToken column (token (getActivePlayer g)) (board g) = (Ok (), b') →
       full b' → hasLine 4 (token (getActivePlayer g)) b' →
       checkTie b' = Ok true
       ∧ (playRound column g).1 = Ok ()
       ∧ console (playRound column g).2
         = console (announce column g)
           ++ [Table (boardWithCellValues b');
               Line (name (getActivePlayer g) +:+ " won!")]
       ∧ activePlayer (playRound column g).2 = activePlayer g).
Proof.
  split.
  - intros rows cols b Hrect Hrows.
    destruct (checkTie_spec rows cols b Hrect Hrows) as (tied & -> & Htied).
    rewrite <- Htied. destruct tied.
    + split; [done |]. split; [done |]. intros Hno. by destruct Hno.
    + split; [split; [by intros [=] | done] |]. split; [| done]. intros _ [=].
  - intros rows cols g column b' Hrect Hrows Hdrop Hfull Hline.
    destruct (playRound_outcome rows cols column g b' Hrect Hrows Hdrop)
      as (won & tied & _ & Hwon & Htie & Htied & ->).
    apply Hwon in Hline as ->. apply Htied in Hfull as ->. done.
Qed.

Lemma win_takes_precedence_witness :
  let g := playRounds [4; 1; 6; 2; 1; 0; 1; 4; 4; 2; 4; 1; 3; 6; 3; 3; 1; 0; 4; 6; 6;
                       1; 2; 3; 6; 0; 6; 4; 2; 5; 5; 3; 3; 2; 0; 5; 0; 5; 0; 5; 2]
             (GameController None None) in
  let b' := (dropToken 5 2 (board g)).2 in
  checkTie b' = Ok true
  ∧ (playRound 5 g).1 = Ok ()
  ∧ console (playRound 5 g).2
    = console (announce 5 g)
      ++ [Table (boardWithCellValues b'); Line "Player Two won!"]
  ∧ activePlayer (playRound 5 g).2 = Seat1.
Proof.
  intros g b'.
  assert (Hrect : rectangular 6 7 b').
  { vm_compute. split; [reflexivity | repeat constructor]. }
  apply (proj2 win_takes_precedence 6%nat 7%nat g 5 b' Hrect).
  - lia.
  - vm_compute. reflexivity.
  - apply (proj1 win_takes_precedence 6%nat 7%nat b' Hrect); [lia |].
    vm_compute. reflexivity.
  - destruct (checkWin_spec 6 7 g b' Hrect) as (won & Hwin & Hwon); [lia |].
    apply Hwon. vm_compute in Hwin. by injection Hwin.
Defined.

(** C7. [GameController()] with both names left out starts on a board of
    6 rows by 7 columns in which every cell is 0, with the players
    "Player One" (token 1) and "Player Two" (token 2), and player one is
    the active player. *)
Theorem GameController_defaults :
  let g := GameController None None in
  rectangular 6 7 (board g)
  ∧ boardWithCellValues (board g) = replicate 6 (replicate 7 0)
  ∧ players g = ({| name := "Player One"; token := 1 |},
                 {| name := "Player Two"; token := 2 |})
  ∧ activePlayer g = Seat0
  ∧ getActivePlayer g = {| name := "Player One"; token := 1 |}.
Proof.
  intros g. split; [apply GameBoard_rectangular |]. by repeat split.
Qed.

(** C8 (as stated, refuted).  Asking for a 3 × 3 grid reports nothing and
    creates the usual 6 × 7 grid. *)
Lemma GameBoard_small_dimensions_accepted :
  boardWithCellValues (GameBoard [3; 3]) = replicate 6 (replicate 7 0).
Proof. reflexivity. Qed.

(** C8 (amended).  [GameBoard] has no parameters: whatever dimensions a
    caller passes are ignored, no error is reported, and the grid created
    always has 6 rows and 7 columns of empty cells; so no grid with fewer
    than four rows or columns is ever created. *)
Theorem GameBoard_fixed_dimensions (arguments : list Z) :
  GameBoard arguments = GameBoard []
  ∧ rectangular 6 7 (GameBoard arguments)
  ∧ boardWithCellValues (GameBoard arguments) = replicate 6 (replicate 7 0).
Proof.
  split; [done |]. split; [apply GameBoard_rectangular | done].
Qed.

(** C9. In a match reached by any sequence of [playRound] calls every cell
    holds 0, 1 or 2; a cell that is not empty keeps its value through any
    further sequence of calls; and one call either leaves a cell as it is
    or turns an empty cell into the active player's token, 1 or 2. *)
Theorem cells_never_revert
    (playerOneName playerTwoName : option string)
    (before after : list Z) (column r c v : Z) :
  let g := playRounds before (GameController playerOneName playerTwoName) in
  cellValue (board g) r c = Ok v →
  (v = 0 ∨ v = 1 ∨ v = 2)
  ∧ (v ≠ 0 → cellValue (board (playRounds after g)) r c = Ok v)
  ∧ (cellValue (board (playRound column g).2) r c = Ok v
     ∨ (v = 0
        ∧ cellValue (board (playRound column g).2) r c
          = Ok (token (getActivePlayer g))
        ∧ (token (getActivePlayer g) = 1 ∨ token (getActivePlayer g) = 2))).
Proof.
  intros g Hv.
  assert (Hwf : wellFormed g) by apply wellFormed_playRounds, wellFormed_start.
  pose proof (wellFormed_token g Hwf) as Htok.
  pose proof Hwf as (Hreach & Hvals & _).
  destruct (reachable_invariant _ Hreach) as [Hrect Hg].
  split; [by eapply Hvals |]. split.
  - intros Hnz. by apply playRounds_keeps.
  - rewrite playRound_board.
    destruct (dropToken_step 6 7 (board g) column (token (getActivePlayer g))
                r c v Hrect Hg Hv) as [Hsame | [-> Hnew]]; [by left | right; done].
Qed.

Lemma cells_never_revert_witness :
  let g := playRounds [3; 3] (GameController None None) in
  (1 = 0 ∨ 1 = 1 ∨ 1 = 2)
  ∧ (1 ≠ 0 → cellValue (board (playRounds [3; 3; 3; 3; 3; 9] g)) 5 3 = Ok 1)
  ∧ (cellValue (board (playRound 3 g).2) 5 3 = Ok 1
     ∨ (1 = 0
        ∧ cellValue (board (playRound 3 g).2) 5 3 = Ok (token (getActivePlayer g))
        ∧ (token (getActivePlayer g) = 1 ∨ token (getActivePlayer g) = 2))).
Proof.
  apply (cells_never_revert None None [3; 3] [3; 3; 3; 3; 3; 9] 3 5 3 1).
  reflexivity.
Defined.

(** ** Scenarios *)

(** Player one stacks four tokens in column 0 while player two plays
    column 6: the seventh round announces the win. *)
Example scenario_vertical_win :
  last (console (playRounds [0; 6; 0; 6; 0; 6; 0] (GameController None None)))
  = Some (Line "Player One won!").
Proof. reflexivity. Qed.

(** Six drops fill column 0; the seventh changes nothing. *)
Example scenario_seventh_drop :
  ∃ b, dropMany 0 [1; 1; 1; 1; 1; 1] (GameBoard []) = Some b
       ∧ dropToken 0 1 b = (Ok (), b)
       ∧ dropMany 0 [1] b = None.
Proof. eexists. split; [reflexivity |]. split; reflexivity. Qed.

(** Forty-two legal moves without a line: the last round announces the tie. *)
Example scenario_tie :
  last (console (playRounds
          [4; 1; 6; 2; 1; 0; 1; 4; 4; 2; 4; 1; 3; 6; 3; 3; 1; 0; 4; 6; 6;
           1; 2; 3; 6; 0; 6; 4; 2; 5; 5; 3; 3; 2; 5; 5; 0; 2; 0; 5; 5; 0]
          (GameController None None)))
  = Some (Line "No more cells. It's a Tie!").
Proof. vm_compute. reflexivity. Qed.

(** Tokens of player one at (5,0), (4,1), (3,2), (2,3). *)
Example scenario_diagonal_win :
  last (console (playRounds [0; 1; 1; 2; 3; 2; 2; 3; 3; 6; 3]
                   (GameController None None)))
  = Some (Line "Player One won!").
Proof. vm_compute. reflexivity. Qed.

(** * Further properties of the code *)

(** ** What a drop does to the board as a data structure *)

(** Either the board is returned as it is, or one cell of one row was
    replaced. *)
Lemma dropToken_written c p (b : Board) :
  (dropToken c p b).2 = b
  ∨ ∃ (k : nat) row cell,
      b !! k = Some row ∧ index row c = Some cell
      ∧ (dropToken c p b).2 = <[k := <[Z.to_nat c := addToken p cell]> row]> b.
Proof.
  unfold dropToken. destruct (availableCells c b) as [cells|]; [| by left].
  case_bool_decide; [by left |]. cbv zeta.
  destruct (index b _) as [row|] eqn:Hrow; [| by left].
  destruct (index row c) as [cell|] eqn:Hcell; [| by left].
  right. apply index_Some in Hrow as [_ Hrow]. eauto 6.
Qed.

Lemma index_insert_ne {A : Type} (xs : list A) (n : nat) (x : A) (i : Z) :
  i ≠ Z.of_nat n → index (<[n := x]> xs) i = index xs i.
Proof.
  intros Hne. unfold index. case_bool_decide; [| done].
  apply list_lookup_insert_ne. lia.
Qed.

Lemma columnValues_other_column c p c' (b : Board) :
  c' ≠ c → columnValues c' (dropToken c p b).2 = columnValues c' b.
Proof.
  intros Hne.
  destruct (dropToken_written c p b) as [-> | (k & row & cell & Hrow & Hcell & ->)];
    [done |].
  apply index_Some in Hcell as [Hc _].
  unfold columnValues. rewrite list_fmap_insert.
  rewrite index_insert_ne by lia.
  apply list_insert_id. by rewrite list_lookup_fmap, Hrow.
Qed.

Lemma emptyCount_other_column c p c' (b : Board) :
  c' ≠ c → emptyCount c' (dropToken c p b).2 = emptyCount c' b.
Proof. intros Hne. unfold emptyCount. by rewrite columnValues_other_column. Qed.

Lemma board_ext rows cols (b b' : Board) :
  rectangular rows cols b → rectangular rows cols b' →
  (∀ r c, cellValue b r c = cellValue b' r c) → b = b'.
Proof.
  intros Hrect Hrect' Hcells.
  apply (list_eq_same_length _ _ rows); [by destruct Hrect' | by destruct Hrect |].
  intros i row row' Hi Hrow Hrow'.
  apply (list_eq_same_length _ _ cols);
    [exact (rectangular_row _ _ _ _ _ Hrect' Hrow')
    | exact (rectangular_row _ _ _ _ _ Hrect Hrow) |].
  intros j cell cell' Hj Hcell Hcell'.
  assert (Hv : cellValue b (Z.of_nat i) (Z.of_nat j) = Ok (getValue cell)).
  { apply cellValue_Ok. exists row, cell.
    split; [apply index_Some; rewrite Nat2Z.id; split; [lia | done] |].
    split; [apply index_Some; rewrite Nat2Z.id; split; [lia | done] | done]. }
  assert (Hv' : cellValue b' (Z.of_nat i) (Z.of_nat j) = Ok (getValue cell')).
  { apply cellValue_Ok. exists row', cell'.
    split; [apply index_Some; rewrite Nat2Z.id; split; [lia | done] |].
    split; [apply index_Some; rewrite Nat2Z.id; split; [lia | done] | done]. }
  rewrite Hcells, Hv' in Hv. injection Hv as Hv.
  destruct cell, cell'. simpl in Hv. by subst.
Qed.

(** The value of every cell after a drop, on a board with at least one row. *)
Lemma dropToken_cellValue rows cols b c p r' c' :
  rectangular rows cols b → (0 < rows)%nat →
  cellValue (dropToken c p b).2 r' c' =
  if bool_decide (0 ≤ c < Z.of_nat cols ∧ emptyCount c b ≠ 0%nat
                  ∧ r' = Z.of_nat (emptyCount c b) - 1 ∧ c' = c)
  then Ok p else cellValue b r' c'.
Proof.
  intros Hrect Hrows.
  destruct (dropToken_cases rows cols b c p Hrect Hrows)
    as [[Hc ->] | [(Hc & Hfull & ->) | (Hc & Hne & b' & -> & _ & Hplaced)]]; simpl.
  - rewrite bool_decide_eq_false_2; [done | tauto].
  - rewrite bool_decide_eq_false_2; [done | tauto].
  - rewrite Hplaced.
    destruct (decide (r' = Z.of_nat (emptyCount c b) - 1 ∧ c' = c)) as [Heq | Hneq].
    + rewrite !bool_decide_eq_true_2 by tauto. done.
    + rewrite !bool_decide_eq_false_2 by tauto. done.
Qed.

Lemma dropToken_rectangular rows cols b c p :
  rectangular rows cols b → rectangular rows cols (dropToken c p b).2.
Proof.
  intros Hrect.
  destruct (dropToken_written c p b) as [-> | (k & row & cell & Hrow & _ & ->)];
    [done | by apply rectangular_write].
Qed.

(** X1. Drops into two different columns do not interfere: done in either
    order they leave the same board.  This holds also when one of them
    finds its column full or its column off the board. *)
Theorem dropToken_commute (rows cols : nat) (b : Board) (c1 p1 c2 p2 : Z) :
  rectangular rows cols b → c1 ≠ c2 →
  (dropToken c2 p2 (dropToken c1 p1 b).2).2
  = (dropToken c1 p1 (dropToken c2 p2 b).2).2.
Proof.
  intros Hrect Hne. destruct rows as [|rows].
  { destruct Hrect as [Hlen _]. by apply nil_length_inv in Hlen as ->. }
  pose proof (dropToken_rectangular _ _ _ c1 p1 Hrect) as Hrect1.
  pose proof (dropToken_rectangular _ _ _ c2 p2 Hrect) as Hrect2.
  apply (board_ext (S rows) cols); [by apply dropToken_rectangular.. |].
  intros r c.
  rewrite !(dropToken_cellValue (S rows) cols) by (done || lia).
  rewrite !emptyCount_other_column by done.
  repeat case_bool_decide; try done; exfalso; lia.
Qed.

Lemma dropToken_commute_witness :
  (dropToken 4 2 (dropToken 3 1 (GameBoard [])).2).2
  = (dropToken 3 1 (dropToken 4 2 (GameBoard [])).2).2.
Proof.
  apply (dropToken_commute 6 7 (GameBoard []) 3 1 4 2).
  - apply GameBoard_rectangular.
  - lia.
Defined.

(** X2. Where an accepted drop lands is decided by a count: on any
    rectangular board, obeying gravity or not, when the filter keeps n > 0
    cells of the column (n is the number of its empty cells) the token is
    written to row n - 1 of that column, whatever that cell held, and no
    other cell changes. *)
Theorem dropToken_lands_at_count
    (rows cols : nat) (b : Board) (column player : Z) (cells : list (option Cell)) :
  rectangular rows cols b →
  availableCells column b = Ok cells → cells ≠ [] →
  length cells = emptyCount column b
  ∧ ∃ b', dropToken column player b = (Ok (), b')
          ∧ rectangular rows cols b'
          ∧ placedAt b b' (Z.of_nat (length cells) - 1) column player.
Proof.
  intros Hrect Hcells Hne.
  assert (Hrows : (0 < rows)%nat).
  { destruct rows; [| lia]. destruct Hrect as [Hlen _].
    apply nil_length_inv in Hlen as ->. injection Hcells as <-. done. }
  destruct (accepted_column rows cols b column cells Hrect Hrows Hcells Hne)
    as [Hc Hroom].
  destruct (availableCells_length rows cols b column Hrect Hc) as (cells' & Hc' & Hlen).
  rewrite Hcells in Hc'. injection Hc' as <-.
  split; [done |]. rewrite Hlen. by apply dropToken_accept.
Qed.

Lemma dropToken_lands_at_count_witness :
  length [Some {| value := 0 |}] = emptyCount 0 floating
  ∧ ∃ b', dropToken 0 2 floating = (Ok (), b')
          ∧ rectangular 6 7 b'
          ∧ placedAt floating b' (Z.of_nat (length [Some {| value := 0 |}]) - 1) 0 2.
Proof.
  apply (dropToken_lands_at_count 6 7 floating 0 2 [Some {| value := 0 |}]).
  - split; [reflexivity | repeat constructor].
  - reflexivity.
  - discriminate.
Defined.

(** ** Shape and capacity *)

(** X3. [dropToken] never changes the shape of the board: the number of
    rows and the length of every row are as before, for any board, column
    and token, also when the call throws.  So the board of a match has 6
    rows of 7 cells after any sequence of rounds. *)
Theorem shape_is_kept :
  (∀ c p (b : Board), length <$> (dropToken c p b).2 = length <$> b)
  ∧ (∀ playerOneName playerTwoName columns,
       rectangular 6 7
         (board (playRounds columns (GameController playerOneName playerTwoName)))).
Proof.
  split.
  - intros c p b.
    destruct (dropToken_written c p b) as [-> | (k & row & cell & Hrow & _ & ->)];
      [done |].
    rewrite list_fmap_insert, length_insert.
    apply list_insert_id. by rewrite list_lookup_fmap, Hrow.
  - intros playerOneName playerTwoName columns.
    destruct (wellFormed_playRounds columns _
                (wellFormed_start playerOneName playerTwoName)) as (Hreach & _).
    by destruct (reachable_invariant _ Hreach).
Qed.

Lemma dropMany_Some_length rows cols c tokens : ∀ b,
  rectangular rows cols b → gravity b → 0 ≤ c < Z.of_nat cols →
  Forall (λ p, p ≠ 0) tokens → is_Some (dropMany c tokens b) →
  (length tokens ≤ emptyCount c b)%nat.
Proof.
  induction tokens as [|p rest IH]; intros b Hrect Hg Hc Hnz Hsome; simpl; [lia |].
  apply Forall_cons in Hnz as [Hp Hnz]. simpl in Hsome.
  destruct (availableCells_length rows cols b c Hrect Hc) as (cells & Hcells & Hlen).
  rewrite Hcells in Hsome.
  destruct cells as [|cell cells]; [by destruct Hsome |].
  assert (Hne : emptyCount c b ≠ 0%nat) by (rewrite <- Hlen; done).
  destruct (dropToken_accept rows cols b c p Hrect Hc Hne)
    as (b1 & Hdrop & Hrect1 & Hplaced).
  rewrite Hdrop in Hsome.
  pose proof (gravity_placed _ _ _ _ _ _ Hrect Hg Hc Hne Hplaced) as Hg1.
  pose proof (emptyCount_placed _ _ _ _ _ _ Hrect Hg Hrect1 Hc Hne Hp Hplaced)
    as Hcount.
  specialize (IH b1 Hrect1 Hg1 Hc Hnz Hsome). lia.
Qed.

(** X4. On a board that obeys gravity a column takes exactly as many tokens
    as it has empty cells: a run of drops of player tokens into one
    column is accepted throughout if and only if it is no longer than the
    number of empty cells of that column. *)
Theorem column_capacity
    (rows cols : nat) (b : Board) (column : Z) (tokens : list Z) :
  rectangular rows cols b → gravity b →
  0 ≤ column < Z.of_nat cols → Forall (λ p, p ≠ 0) tokens →
  is_Some (dropMany column tokens b) ↔ (length tokens ≤ emptyCount column b)%nat.
Proof.
  intros Hrect Hg Hc Hnz. split.
  - by apply (dropMany_Some_length rows cols).
  - intros Hlen.
    destruct (dropMany_stack rows cols column tokens b Hrect Hg Hc Hnz Hlen)
      as (b' & -> & _). eauto.
Qed.

Lemma column_capacity_witness :
  is_Some (dropMany 2 [1; 2; 1; 2; 1; 2; 1] (GameBoard []))
  ↔ (length [1; 2; 1; 2; 1; 2; 1] ≤ emptyCount 2 (GameBoard []))%nat.
Proof.
  apply (column_capacity 6 7 (GameBoard []) 2 [1; 2; 1; 2; 1; 2; 1]).
  - apply GameBoard_rectangular.
  - apply GameBoard_gravity.
  - lia.
  - repeat constructor; lia.
Defined.

(** ** Counting empty cells *)

Lemma total_ext {A : Type} (w w' : A → Z) xs :
  (∀ x, x ∈ xs → w' x = w x) → total w' xs = total w xs.
Proof.
  induction xs as [|x xs IH]; intros Hw; simpl; [done |].
  rewrite (Hw x) by left. rewrite IH; [done |].
  intros y Hy. apply Hw. by right.
Qed.

Lemma total_change {A : Type} (w w' : A → Z) xs c :
  NoDup xs → c ∈ xs → (∀ x, x ∈ xs → x ≠ c → w' x = w x) →
  total w' xs = total w xs + (w' c - w c).
Proof.
  induction xs as [|x xs IH]; intros Hnd Hc Hw; [by apply elem_of_nil in Hc |].
  apply NoDup_cons in Hnd as [Hx Hnd]. simpl.
  apply elem_of_cons in Hc as [-> | Hc].
  - rewrite (total_ext w w' xs); [lia |].
    intros y Hy. apply Hw; [by right | by intros ->].
  - rewrite (Hw x); [| left | by intros ->].
    rewrite IH; [lia | done | done |].
    intros y Hy. apply Hw. by right.
Qed.

Lemma accepts_spec rows cols b column :
  rectangular rows cols b → (0 < rows)%nat →
  accepts column b = true ↔ 0 ≤ column < Z.of_nat cols ∧ emptyCount column b ≠ 0%nat.
Proof.
  intros Hrect Hrows. unfold accepts.
  destruct (decide (0 ≤ column < Z.of_nat cols)) as [Hc | Hc].
  - destruct (availableCells_length rows cols b column Hrect Hc) as (cells & -> & <-).
    destruct cells; simpl; split; try done; intros [_ ?]; done.
  - rewrite (availableCells_out_of_range rows cols) by done.
    split; [done | tauto].
Qed.

Lemma emptyCells_zero rows cols b :
  rectangular rows cols b → emptyCells cols b = 0 ↔ full b.
Proof.
  intros Hrect. unfold emptyCells.
  rewrite total_zero by (intros; lia). split.
  - intros Hzero r c Hv.
    pose proof (cellValue_bounds _ _ _ _ _ _ Hrect Hv) as [_ Hc].
    specialize (Hzero c ltac:(apply elem_of_seqZ; lia)).
    apply (emptyCount_zero rows cols b c Hrect Hc) in Hv; [done | lia].
  - intros Hfull c Hc%elem_of_seqZ.
    assert (emptyCount c b = 0%nat); [| lia].
    apply (emptyCount_zero rows cols); [done | lia |]. intros r. apply Hfull.
Qed.

Lemma playRound_emptyCells column g :
  wellFormed g →
  emptyCells 7 (board (playRound column g).2)
  = emptyCells 7 (board g) - (if accepts column (board g) then 1 else 0).
Proof.
  intros Hwf. pose proof (wellFormed_token g Hwf) as Htok.
  destruct Hwf as (Hreach & _). rewrite playRound_board.
  destruct (reachable_invariant _ Hreach) as [Hrect Hg].
  set (tok := token (getActivePlayer g)) in *.
  pose proof (accepts_spec 6 7 (board g) column Hrect ltac:(lia)) as Hacc.
  destruct (dropToken_cases 6 7 (board g) column tok Hrect ltac:(lia))
    as [[Hc ->] | [(Hc & Hfull & ->) | (Hc & Hne & b' & Hdrop & Hrect' & Hplaced)]].
  - destruct (accepts column (board g)); [| simpl; lia].
    exfalso. apply Hc. by apply Hacc.
  - destruct (accepts column (board g)); [| simpl; lia].
    exfalso. by apply (proj1 Hacc).
  - rewrite (proj2 Hacc) by done.
    pose proof (emptyCount_placed 6 7 (board g) b' column tok Hrect Hg Hrect' Hc Hne
                  ltac:(lia) Hplaced) as Hcount.
    unfold emptyCells.
    rewrite (total_change (λ c, Z.of_nat (emptyCount c (board g))) _ _ column).
    + rewrite Hdrop. simpl. rewrite Hcount. lia.
    + apply NoDup_seqZ.
    + apply elem_of_seqZ. lia.
    + intros c _ Hother. by rewrite emptyCount_other_column.
Qed.

Lemma playRounds_emptyCells columns : ∀ g,
  wellFormed g →
  emptyCells 7 (board (playRounds columns g)) + Z.of_nat (acceptedRounds columns g)
  = emptyCells 7 (board g).
Proof.
  induction columns as [|column columns IH]; intros g Hwf; simpl; [lia |].
  pose proof (IH _ (wellFormed_playRound column g Hwf)) as Hrest.
  fold (playRounds columns (playRound column g).2).
  rewrite playRound_emptyCells in Hrest by done.
  destruct (accepts column (board g)); lia.
Qed.

(** X5. Every match keeps the books: the empty cells left on the board and
    the rounds that placed a token add up to 42.  So at most 42 rounds of
    any sequence place a token, and the board is full exactly when 42
    have. *)
Theorem empty_cells_accounting
    (playerOneName playerTwoName : option string) (columns : list Z) :
  let start := GameController playerOneName playerTwoName in
  let g := playRounds columns start in
  emptyCells 7 (board g) + Z.of_nat (acceptedRounds columns start) = 42
  ∧ (acceptedRounds columns start ≤ 42)%nat
  ∧ (full (board g) ↔ acceptedRounds columns start = 42%nat).
Proof.
  intros start g.
  pose proof (playRounds_emptyCells columns start
                (wellFormed_start playerOneName playerTwoName)) as Hsum.
  fold g in Hsum. change (emptyCells 7 (board start)) with 42 in Hsum.
  assert (Hwf : wellFormed g) by apply wellFormed_playRounds, wellFormed_start.
  destruct Hwf as (Hreach & _). destruct (reachable_invariant _ Hreach) as [Hrect _].
  assert (0 ≤ emptyCells 7 (board g)).
  { apply total_nonneg. intros; lia. }
  split; [done |]. split; [lia |].
  rewrite <- (emptyCells_zero 6 7 (board g) Hrect). lia.
Qed.

(** ** Rounds, again *)

Lemma dropToken_returns rows cols b c p :
  rectangular rows cols b → 0 ≤ c < Z.of_nat cols →
  ∃ b', dropToken c p b = (Ok (), b') ∧ rectangular rows cols b'.
Proof.
  intros Hrect Hc. destruct (decide (emptyCount c b = 0%nat)) as [Hfull | Hroom].
  - exists b. split; [by eapply dropToken_full | done].
  - destruct (dropToken_accept rows cols b c p Hrect Hc Hroom) as (b' & ? & ? & _).
    eauto.
Qed.

Lemma otherSeat_ne s : otherSeat s ≠ s.
Proof. by destruct s. Qed.

(** The round on a column of the board: what is left behind, in terms of
    the two tests. *)
Lemma playRound_in_range rows cols g column :
  rectangular rows cols (board g) → (0 < rows)%nat →
  0 ≤ column < Z.of_nat cols →
  ∃ b' won tied,
    dropToken column (token (getActivePlayer g)) (board g) = (Ok (), b')
    ∧ rectangular rows cols b'
    ∧ (won = true ↔ hasLine 4 (token (getActivePlayer g)) b')
    ∧ (tied = true ↔ full b')
    ∧ playRound column g
      = (Ok (), roundEnd won tied (withBoard b' (announce column g))).
Proof.
  intros Hrect Hrows Hc.
  destruct (dropToken_returns rows cols (board g) column
              (token (getActivePlayer g)) Hrect Hc) as (b' & Hdrop & Hrect').
  destruct (playRound_outcome rows cols column g b' Hrect' Hrows Hdrop)
    as (won & tied & _ & Hwon & _ & Htied & Hplay).
  exists b', won, tied. done.
Qed.

Lemma playRound_out_of_range rows cols g column :
  rectangular rows cols (board g) → (0 < rows)%nat →
  ¬ (0 ≤ column < Z.of_nat cols) →
  playRound column g = (TypeError, withBoard (board g) (announce column g)).
Proof.
  intros Hrect Hrows Hc. apply playRound_throws.
  by eapply dropToken_out_of_range.
Qed.

(** X6. [playRound] passes the turn exactly when the column is on the board
    and the board it leaves holds no line of the mover and is not full;
    in every other case, a column off the board included, the same
    player is to move again.  Whether the drop placed a token plays no
    part. *)
Theorem playRound_passes_turn_iff (rows cols : nat) (g : Game) (column : Z) :
  rectangular rows cols (board g) → (0 < rows)%nat →
  let tok := token (getActivePlayer g) in
  let g' := (playRound column g).2 in
  (activePlayer g' = otherSeat (activePlayer g) ↔
     0 ≤ column < Z.of_nat cols
     ∧ ¬ hasLine 4 tok (board g') ∧ ¬ full (board g'))
  ∧ (activePlayer g' = activePlayer g ∨ activePlayer g' = otherSeat (activePlayer g)).
Proof.
  intros Hrect Hrows tok g'.
  destruct (decide (0 ≤ column < Z.of_nat cols)) as [Hc | Hc].
  - destruct (playRound_in_range rows cols g column Hrect Hrows Hc)
      as (b' & won & tied & _ & _ & Hwon & Htied & Hplay).
    unfold g'. rewrite Hplay. simpl.
    rewrite roundEnd_board, roundEnd_activePlayer. simpl.
    fold tok in Hwon. rewrite <- Hwon, <- Htied.
    pose proof (otherSeat_ne (activePlayer g)).
    destruct won, tied; simpl;
      try (split;
           [split; [intros Heq; exfalso; congruence
                   | intros (_ & ? & ?); exfalso; congruence]
           | by left]).
    split; [| by right]. split; [intros _ | done].
    split; [done |]. split; congruence.
  - unfold g'. rewrite (playRound_out_of_range rows cols) by done. simpl.
    pose proof (otherSeat_ne (activePlayer g)).
    split; [| by left]. split; [congruence | tauto].
Qed.

Lemma playRound_passes_turn_iff_witness :
  let g := playRounds [0; 0; 0; 0; 0; 0] (GameController None None) in
  (activePlayer (playRound 0 g).2 = otherSeat (activePlayer g) ↔
     0 ≤ 0 < 7
     ∧ ¬ hasLine 4 1 (board (playRound 0 g).2) ∧ ¬ full (board (playRound 0 g).2))
  ∧ (activePlayer (playRound 0 g).2 = activePlayer g
     ∨ activePlayer (playRound 0 g).2 = otherSeat (activePlayer g)).
Proof.
  intros g. apply (playRound_passes_turn_iff 6 7 g 0).
  - vm_compute. split; [reflexivity | repeat constructor].
  - lia.
Defined.

(** X7. A round on a column of the board that leaves no line of the mover
    ends in one of two ways.  On a full board it prints the board and the
    tie message and the mover stays the active player; otherwise it makes
    the other player active and prints the board and that player's turn
    line. *)
Theorem playRound_tie_or_next (rows cols : nat) (g : Game) (column : Z) :
  rectangular rows cols (board g) → (0 < rows)%nat →
  0 ≤ column < Z.of_nat cols →
  let g' := (playRound column g).2 in
  ¬ hasLine 4 (token (getActivePlayer g)) (board g') →
  (playRound column g).1 = Ok ()
  ∧ (full (board g') →
       activePlayer g' = activePlayer g
       ∧ console g' = console (announce column g)
                      ++ [Table (boardWithCellValues (board g'));
                          Line "No more cells. It's a Tie!"])
  ∧ (¬ full (board g') →
       activePlayer g' = otherSeat (activePlayer g)
       ∧ console g' = console (announce column g)
                      ++ [Table (boardWithCellValues (board g'));
                          Line (name (playerAt g (otherSeat (activePlayer g)))
                                +:+ "'s turn.")]).
Proof.
  intros Hrect Hrows Hc g'.
  destruct (playRound_in_range rows cols g column Hrect Hrows Hc)
    as (b' & won & tied & _ & _ & Hwon & Htied & Hplay).
  unfold g'. rewrite Hplay. simpl. rewrite roundEnd_board. simpl.
  intros Hnowin. destruct won; [by destruct Hnowin; apply Hwon |].
  split; [done |]. destruct tied.
  - split; [done |]. intros Hnot. destruct Hnot. by apply Htied.
  - split; [intros Hfull; by apply Htied in Hfull |].
    intros _. unfold roundEnd, printNewRound, switchPlayerTurn, getActivePlayer,
      playerAt, announce, withBoard, log. simpl.
    destruct (activePlayer g) eqn:Hseat; simpl;
      unfold getActivePlayer, playerAt; by rewrite Hseat.
Qed.

Lemma playRound_tie_or_next_witness :
  let g := GameController None None in
  (playRound 3 g).1 = Ok ()
  ∧ (full (board (playRound 3 g).2) →
       activePlayer (playRound 3 g).2 = activePlayer g
       ∧ console (playRound 3 g).2
         = console (announce 3 g)
           ++ [Table (boardWithCellValues (board (playRound 3 g).2));
               Line "No more cells. It's a Tie!"])
  ∧ (¬ full (board (playRound 3 g).2) →
       activePlayer (playRound 3 g).2 = otherSeat (activePlayer g)
       ∧ console (playRound 3 g).2
         = console (announce 3 g)
           ++ [Table (boardWithCellValues (board (playRound 3 g).2));
               Line "Player Two's turn."]).
Proof.
  intros g. apply (playRound_tie_or_next 6 7 g 3).
  - apply GameBoard_rectangular.
  - lia.
  - lia.
  - destruct (checkWin_spec 6 7 g (board (playRound 3 g).2)) as (won & Hwin & Hwon).
    + vm_compute. split; [reflexivity | repeat constructor].
    + lia.
    + intros Hline. apply Hwon in Hline. vm_compute in Hwin. congruence.
Defined.

Lemma playRound_on_full_board rows cols g column :
  rectangular rows cols (board g) → (0 < rows)%nat → full (board g) →
  board (playRound column g).2 = board g
  ∧ activePlayer (playRound column g).2 = activePlayer g.
Proof.
  intros Hrect Hrows Hfull.
  destruct (decide (0 ≤ column < Z.of_nat cols)) as [Hc | Hc].
  - destruct (playRound_in_range rows cols g column Hrect Hrows Hc)
      as (b' & won & tied & Hdrop & _ & _ & Htied & ->).
    rewrite (dropToken_full rows cols) in Hdrop; [| done | done |].
    + injection Hdrop as <-. simpl.
      rewrite roundEnd_board, roundEnd_activePlayer. simpl.
      rewrite (proj2 Htied Hfull). by rewrite orb_true_r.
    + apply (emptyCount_zero rows cols); [done | done |]. intros r. apply Hfull.
  - by rewrite (playRound_out_of_range rows cols).
Qed.

(** X8. Nothing stops rounds on a full board, but they are idle: whatever
    columns are played, in range or not, the board stays as it is and the
    same player stays active. *)
Theorem full_board_stays (rows cols : nat) (g : Game) (columns : list Z) :
  rectangular rows cols (board g) → (0 < rows)%nat → full (board g) →
  board (playRounds columns g) = board g
  ∧ activePlayer (playRounds columns g) = activePlayer g.
Proof.
  intros Hrect Hrows Hfull. revert g Hrect Hfull.
  induction columns as [|column columns IH]; intros g Hrect Hfull; [done |].
  destruct (playRound_on_full_board rows cols g column Hrect Hrows Hfull)
    as [Hboard Hactive].
  simpl. fold (playRounds columns (playRound column g).2).
  destruct (IH (playRound column g).2) as [Hboard' Hactive'].
  - by rewrite Hboard.
  - by rewrite Hboard.
  - split; congruence.
Qed.

Lemma full_board_stays_witness :
  let g := playRounds [4; 1; 6; 2; 1; 0; 1; 4; 4; 2; 4; 1; 3; 6; 3; 3; 1; 0; 4; 6; 6;
                       1; 2; 3; 6; 0; 6; 4; 2; 5; 5; 3; 3; 2; 5; 5; 0; 2; 0; 5; 5; 0]
             (GameController None None) in
  board (playRounds [3; 8; 0] g) = board g
  ∧ activePlayer (playRounds [3; 8; 0] g) = activePlayer g.
Proof.
  intros g.
  assert (Hrect : rectangular 6 7 (board g)).
  { vm_compute. split; [reflexivity | repeat constructor]. }
  apply (full_board_stays 6 7 g [3; 8; 0] Hrect); [lia |].
  destruct (checkTie_spec 6 7 (board g) Hrect) as (tied & Htie & Htied); [lia |].
  apply Htied. vm_compute in Htie. congruence.
Defined.

Lemma hasLine_playRound n column g :
  wellFormed g → 0 < n →
  hasLine n (token (getActivePlayer g)) (board g) →
  hasLine n (token (getActivePlayer g)) (board (playRound column g).2).
Proof.
  intros Hwf Hn (r & c & d & Hd & Hline).
  pose proof (wellFormed_token g Hwf) as Htok.
  exists r, c, d. split; [done |]. intros i Hi.
  apply playRound_keeps; [done | by apply Hline | lia].
Qed.

Lemma playRound_after_win column g :
  wellFormed g →
  hasLine 4 (token (getActivePlayer g)) (board g) →
  activePlayer (playRound column g).2 = activePlayer g
  ∧ getActivePlayer (playRound column g).2 = getActivePlayer g
  ∧ hasLine 4 (token (getActivePlayer g)) (board (playRound column g).2)
  ∧ (0 ≤ column < 7 →
     (playRound column g).1 = Ok ()
     ∧ last (console (playRound column g).2)
       = Some (Line (name (getActivePlayer g) +:+ " won!"))).
Proof.
  intros Hwf Hline.
  pose proof (hasLine_playRound 4 column g Hwf ltac:(lia) Hline) as Hline'.
  destruct Hwf as (Hreach & _).
  destruct (reachable_invariant _ Hreach) as [Hrect _].
  assert (Hactive : activePlayer (playRound column g).2 = activePlayer g
                    ∧ (0 ≤ column < 7 →
                       (playRound column g).1 = Ok ()
                       ∧ last (console (playRound column g).2)
                         = Some (Line (name (getActivePlayer g) +:+ " won!")))).
  { destruct (decide (0 ≤ column < 7)) as [Hc | Hc].
    - destruct (playRound_in_range 6 7 g column Hrect ltac:(lia) Hc)
        as (b' & won & tied & Hdrop & _ & Hwon & _ & Hplay).
      rewrite playRound_board, Hdrop in Hline'. simpl in Hline'.
      apply Hwon in Hline' as ->. rewrite Hplay. simpl.
      split; [done |]. intros _. split; [done |].
      by rewrite last_app.
    - rewrite (playRound_out_of_range 6 7 g column Hrect ltac:(lia) Hc).
      split; [done | intros Hin; by destruct Hc]. }
  destruct Hactive as [Hactive Hlast].
  split; [done |]. split; [| done].
  unfold getActivePlayer, playerAt. by rewrite Hactive, playRound_players.
Qed.

(** X9. Nothing stops rounds after a win either.  Once the board of a match
    holds a line of the active player, that player stays active through
    any further rounds and the line stays; each further round on a column
    of the board still drops for that player and announces the win
    again. *)
Theorem win_is_final
    (playerOneName playerTwoName : option string)
    (before after : list Z) (column : Z) :
  let g := playRounds before (GameController playerOneName playerTwoName) in
  let g' := playRounds after g in
  hasLine 4 (token (getActivePlayer g)) (board g) →
  getActivePlayer g' = getActivePlayer g
  ∧ hasLine 4 (token (getActivePlayer g)) (board g')
  ∧ (0 ≤ column < 7 →
     (playRound column g').1 = Ok ()
     ∧ last (console (playRound column g').2)
       = Some (Line (name (getActivePlayer g) +:+ " won!"))).
Proof.
  intros g g' Hline.
  assert (Hwf : wellFormed g) by apply wellFormed_playRounds, wellFormed_start.
  assert (Hkept : wellFormed g' ∧ getActivePlayer g' = getActivePlayer g
                  ∧ hasLine 4 (token (getActivePlayer g)) (board g')).
  { unfold g'. clearbody g. clear g'. revert g Hwf Hline.
    induction after as [|c after IH]; intros g Hwf Hline; [done |].
    destruct (playRound_after_win c g Hwf Hline) as (_ & Hsame & Hline' & _).
    simpl. fold (playRounds after (playRound c g).2).
    rewrite <- Hsame in Hline' |- *.
    apply IH; [by apply wellFormed_playRound | done]. }
  destruct Hkept as (Hwf' & Hsame & Hline').
  split; [done |]. split; [done |].
  rewrite <- Hsame in Hline' |- *.
  by apply playRound_after_win.
Qed.

Lemma win_is_final_witness :
  let g := playRounds [0; 6; 0; 6; 0; 6; 0] (GameController None None) in
  let g' := playRounds [1; 9; 1] g in
  getActivePlayer g' = getActivePlayer g
  ∧ hasLine 4 1 (board g')
  ∧ (0 ≤ 2 < 7 →
     (playRound 2 g').1 = Ok ()
     ∧ last (console (playRound 2 g').2) = Some (Line "Player One won!")).
Proof.
  intros g g'.
  apply (win_is_final None None [0; 6; 0; 6; 0; 6; 0] [1; 9; 1] 2).
  destruct (checkWin_spec 6 7 g (board g)) as (won & Hwin & Hwon).
  - vm_compute. split; [reflexivity | repeat constructor].
  - lia.
  - apply Hwon. vm_compute in Hwin. congruence.
Defined.

(** ** The console and the players *)

Lemma playRound_console column g :
  ∃ out, console (playRound column g).2 = console g ++ out
         ∧ (1 ≤ length out ≤ 3)%nat.
Proof.
  unfold playRound. cbv zeta.
  destruct (dropToken _ _ _) as [[[]|] b].
  - destruct (checkWin _ _) as [[]|]; [| destruct (checkTie _) as [[]|] |];
      simpl; rewrite <- ?app_assoc; eexists; (split; [reflexivity | simpl; lia]).
  - simpl. eexists. split; [reflexivity | simpl; lia].
Qed.

(** X10. The console is only ever appended to.  Every round writes at least
    its "Dropping" line and at most three entries, whatever the board and
    the column and whether or not the round throws. *)
Theorem console_append_only (g : Game) (columns : list Z) :
  ∃ out, console (playRounds columns g) = console g ++ out
         ∧ (length columns ≤ length out ≤ 3 * length columns)%nat.
Proof.
  revert g. induction columns as [|column columns IH]; intros g.
  - exists []. split; [by rewrite app_nil_r | simpl; lia].
  - destruct (playRound_console column g) as (out1 & Hout1 & Hlen1).
    destruct (IH (playRound column g).2) as (out2 & Hout2 & Hlen2).
    exists (out1 ++ out2). simpl. fold (playRounds columns (playRound column g).2).
    split; [by rewrite Hout2, Hout1, app_assoc |].
    rewrite length_app. simpl. lia.
Qed.

Lemma playRounds_players columns g : players (playRounds columns g) = players g.
Proof.
  revert g. induction columns as [|column columns IH]; intros g; [done |].
  simpl. fold (playRounds columns (playRound column g).2).
  by rewrite IH, playRound_players.
Qed.

(** X11. The two players of a match are fixed when it is created: through
    any sequence of rounds they keep the names given to [GameController]
    (or the defaults) and the tokens 1 and 2, [getActivePlayer] returns
    one of the two, and the console still starts with the empty board and
    player one's turn line. *)
Theorem players_never_change
    (playerOneName playerTwoName : option string) (columns : list Z) :
  let g := playRounds columns (GameController playerOneName playerTwoName) in
  let one := {| name := default "Player One" playerOneName; token := 1 |} in
  let two := {| name := default "Player Two" playerTwoName; token := 2 |} in
  players g = (one, two)
  ∧ getActivePlayer g = (if decide (activePlayer g = Seat0) then one else two)
  ∧ take 2 (console g)
    = [Table (replicate 6 (replicate 7 0)); Line (name one +:+ "'s turn.")].
Proof.
  intros g one two.
  assert (Hplayers : players g = (one, two)) by apply playRounds_players.
  split; [done |]. split.
  - unfold getActivePlayer, playerAt. rewrite Hplayers.
    by destruct (activePlayer g).
  - destruct (console_append_only (GameController playerOneName playerTwoName) columns)
      as (out & Hout & _).
    fold g in Hout. rewrite Hout. done.
Qed.

(** ** printBoard *)

Lemma index_fmap {A B : Type} (f : A → B) (xs : list A) (i : Z) :
  index (f <$> xs) i = f <$> index xs i.
Proof. unfold index. case_bool_decide; [apply list_lookup_fmap | done]. Qed.

(** X12. [printBoard] logs one matrix, of the shape of the board, whose
    entry at [(r, c)] is the value of the cell at [(r, c)]; the matrix
    determines the board. *)
Theorem printBoard_snapshot (b : Board) :
  printBoard b = [Table (boardWithCellValues b)]
  ∧ length <$> boardWithCellValues b = length <$> b
  ∧ (∀ r c v,
       cellValue b r c = Ok v ↔
       ∃ row, index (boardWithCellValues b) r = Some row ∧ index row c = Some v)
  ∧ (∀ b', boardWithCellValues b' = boardWithCellValues b → b' = b).
Proof.
  split; [done |]. split; [| split].
  - unfold boardWithCellValues. rewrite <- list_fmap_compose.
    apply list_fmap_ext. intros i row _. simpl. by rewrite length_fmap.
  - intros r c v. rewrite cellValue_Ok. unfold boardWithCellValues. split.
    + intros (row & cell & Hrow & Hcell & <-).
      exists ((λ cell, getValue cell) <$> row).
      by rewrite !index_fmap, Hrow, Hcell.
    + intros (vs & Hvs & Hv). rewrite index_fmap in Hvs.
      apply fmap_Some in Hvs as (row & Hrow & ->). rewrite index_fmap in Hv.
      apply fmap_Some in Hv as (cell & Hcell & ->). eauto.
  - intros b' Heq. unfold boardWithCellValues in Heq.
    assert (Hinj : Inj (=) (=) (λ cell : Cell, getValue cell)).
    { intros [v1] [v2] Hv. simpl in Hv. by subst. }
    by apply (inj (fmap (λ row : list Cell, (λ cell, getValue cell) <$> row))) in Heq.
Qed.

Lemma printBoard_snapshot_witness :
  GameBoard [3; 3] = GameBoard [].
Proof.
  apply (proj2 (proj2 (proj2 (printBoard_snapshot (GameBoard []))))).
  reflexivity.
Defined.
